(** * Car showroom dashboard: the data path of [carshowroom_dashboard1.py]

    The script reads a CSV of sales into a pandas DataFrame, derives three
    date columns, filters the table by three sidebar selections and feeds
    group-by aggregates and one cross-tabulation to the charts.  This file
    embeds that data path: a DataFrame is a list of rows in index order, a
    column is the list of one field, a missing cell (NaN, NaT) is [None].
    Widgets and charts are not embedded. *)

From Stdlib Require Import ZArith QArith Qabs String Ascii List DecimalString.
From Stdlib Require Import SpecFloat.
From stdpp Require Import base option list gmap strings sorting.

Local Open Scope string_scope.
Set Warnings "-clear-no-such-hyp".

(** ** Data model *)

Inductive month :=
  | January | February | March | April | May | June
  | July | August | September | October | November | December.

#[global] Instance month_eq_dec : EqDecision month.
Proof. solve_decision. Defined.

(** A parsed [SaleDate] cell: what [pd.to_datetime] yields for a date
    string.  The time of day is never read by the script. *)
Record Timestamp := { ts_year : Z; ts_month : month; ts_day : Z }.

#[global] Instance Timestamp_eq_dec : EqDecision Timestamp.
Proof. solve_decision. Defined.

(** One line of [car_showroom_data.csv] after [pd.read_csv] and
    [pd.to_datetime]: an empty cell is [None].  Lines 112-113 hand the
    distinct [City] and [FuelType] values to [sorted], which raises when
    text is mixed with a missing cell, so the script goes on only with
    text in these two columns.  [Price] holds whole currency amounts.
    The code adds them as int64 when no cell of the column is missing
    and as float64 otherwise; both give the exact sum while the absolute
    values of the prices add up to less than 2^53 ([price_bound] below),
    and the sums of this file are the exact ones: a statement about the
    value of a sum or of a mean of prices assumes that bound. *)
Record CsvRow := {
  csv_SaleDate : option Timestamp;
  csv_City : string;
  csv_FuelType : string;
  csv_CarModel : option string;
  csv_SalesPersonID : option string;
  csv_Price : option Z
}.

(** One row of [df] as [load_data] returns it. *)
Record Row := {
  SaleDate : option Timestamp;
  City : string;
  FuelType : string;
  CarModel : option string;
  SalesPersonID : option string;
  Price : option Z;
  Year : string;
  Month : option Z;
  MonthName : option string
}.

#[global] Instance Row_eq_dec : EqDecision Row.
Proof. solve_decision. Defined.

(** ** [load_data] (lines 96-103) *)

Definition month_number (m : month) : Z :=
  match m with
  | January => 1 | February => 2 | March => 3 | April => 4
  | May => 5 | June => 6 | July => 7 | August => 8
  | September => 9 | October => 10 | November => 11 | December => 12
  end%Z.

(** [strftime("%b")] in the C locale. *)
Definition strftime_b (m : month) : string :=
  match m with
  | January => "Jan" | February => "Feb" | March => "Mar" | April => "Apr"
  | May => "May" | June => "Jun" | July => "Jul" | August => "Aug"
  | September => "Sep" | October => "Oct" | November => "Nov"
  | December => "Dec"
  end.

(** Python's [str] on an int. *)
Definition str_int (z : Z) : string := NilZero.string_of_int (Z.to_int z).

(** A numeric column carries its dtype: a datetime field accessor gives
    integers when no date is missing and float64 with NaN otherwise. *)
Inductive NumSeries :=
  | IntSeries (vals : list Z)
  | FloatSeries (vals : list (option Z)).

Definition hasnans (col : list (option Timestamp)) : bool :=
  negb (forallb (λ c, bool_decide (is_Some c)) col).

Definition dt_field (f : Timestamp → Z) (col : list (option Timestamp))
  : NumSeries :=
  if hasnans col then FloatSeries (map (fmap f) col)
  else IntSeries (map (λ c, from_option f 0%Z c) col).

Definition dt_year := dt_field ts_year.
Definition dt_month := dt_field (λ t, month_number (ts_month t)).

(** [str] on a float64 cell that holds a whole number, or NaN.  The text
    of a NaN cell is the one pandas 2 writes; pandas 3 leaves the cell
    missing.  No statement of this file reads it. *)
Definition str_float (c : option Z) : string :=
  match c with
  | Some z => str_int z ++ ".0"
  | None => "nan"
  end.

Definition astype_str (s : NumSeries) : list string :=
  match s with
  | IntSeries vals => map str_int vals
  | FloatSeries vals => map str_float vals
  end.

(** The numeric value of each cell, whatever the dtype. *)
Definition num_cells (s : NumSeries) : list (option Z) :=
  match s with
  | IntSeries vals => map Some vals
  | FloatSeries vals => vals
  end.

Definition dt_strftime_b (col : list (option Timestamp))
  : list (option string) :=
  map (fmap (λ t, strftime_b (ts_month t))) col.

(** Column assignment [df[name] = ...] for the three derived columns. *)
Fixpoint assign_columns (csv : list CsvRow) (year : list string)
    (mon : list (option Z)) (mname : list (option string)) : list Row :=
  match csv, year, mon, mname with
  | r :: csv', y :: year', m :: mon', n :: mname' =>
      {| SaleDate := csv_SaleDate r; City := csv_City r;
         FuelType := csv_FuelType r; CarModel := csv_CarModel r;
         SalesPersonID := csv_SalesPersonID r; Price := csv_Price r;
         Year := y; Month := m; MonthName := n |}
      :: assign_columns csv' year' mon' mname'
  | _, _, _, _ => []
  end.

Definition load_data (csv : list CsvRow) : list Row :=
  let sale_date := map csv_SaleDate csv in
  assign_columns csv
    (astype_str (dt_year sale_date))
    (num_cells (dt_month sale_date))
    (dt_strftime_b sale_date).

(** ** Sidebar and filter (lines 111-119) *)

(** [Series.unique()]: distinct values in order of first appearance. *)
Fixpoint unique_aux {A} `{EqDecision A} (seen : list A) (l : list A)
  : list A :=
  match l with
  | [] => []
  | x :: l' =>
      if decide (x ∈ seen) then unique_aux seen l'
      else x :: unique_aux (x :: seen) l'
  end.

Definition unique {A} `{EqDecision A} (l : list A) : list A :=
  unique_aux [] l.

(** Python compares [str] by code point, which on UTF-8 bytes is the
    byte-wise order. *)
Definition str_le (a b : string) : Prop := String.leb a b = true.

#[global] Instance str_le_dec : RelDecision str_le.
Proof. intros a b. unfold str_le. apply _. Defined.

Definition sorted (l : list string) : list string := merge_sort str_le l.

(** The options of a multiselect, also its default selection. *)
Definition sidebar_options (col : list string) : list string :=
  sorted (unique col).

Definition isin (col values : list string) : list bool :=
  map (λ v, bool_decide (v ∈ values)) col.

(** Element-wise [&] of two boolean series over the same index. *)
Definition mask_and (a b : list bool) : list bool := zip_with andb a b.

(** Boolean indexing [df[mask]]; the mask is built from [df]'s own
    columns, so the two have the same length. *)
Fixpoint getitem_mask (df : list Row) (mask : list bool) : list Row :=
  match df, mask with
  | r :: df', b :: mask' =>
      if b then r :: getitem_mask df' mask' else getitem_mask df' mask'
  | _, _ => []
  end.

Definition filtered_df (df : list Row) (year city fuel : list string)
  : list Row :=
  getitem_mask df
    (mask_and
       (mask_and (isin (map Year df) year) (isin (map City df) city))
       (isin (map FuelType df) fuel)).

(** What the filter asks of a row. *)
Definition selected (year city fuel : list string) (r : Row) : Prop :=
  Year r ∈ year ∧ City r ∈ city ∧ FuelType r ∈ fuel.

#[global] Instance selected_dec year city fuel r
  : Decision (selected year city fuel r).
Proof. unfold selected. apply _. Defined.

(** ** Group-by (lines 156, 162, 178-182, 190-193, 209, 215-218)

    [groupby(key)] with pandas' defaults: one pass over the rows feeds
    each row to the accumulator of its key, a row whose key is missing
    is skipped ([dropna=True]), and the groups come out in key order
    ([sort=True]). *)
Section groupby.
Context {A K V : Type} `{Countable K}.
Context (key_le : relation K) `{!RelDecision key_le}.
Context (key : A → option K) (init : V) (upd : V → A → V).

Definition group_step (tbl : gmap K V) (r : A) : gmap K V :=
  match key r with
  | Some k => <[k := upd (default init (tbl !! k)) r]> tbl
  | None => tbl
  end.

Definition group_fold (df : list A) : gmap K V :=
  fold_left group_step df ∅.

Definition by_key (a b : K * V) : Prop := key_le a.1 b.1.

#[global] Instance by_key_dec : RelDecision by_key.
Proof. intros a b. unfold by_key. apply _. Defined.

Definition group_rows (tbl : gmap K V) : list (K * V) :=
  merge_sort by_key (map_to_list tbl).

Definition groupby (df : list A) : list (K * V) :=
  group_rows (group_fold df).
End groupby.

(** The rows of [df] whose key is [k], in the order of [df]. *)
Definition group_of {A K} `{EqDecision K} (key : A → option K) (k : K)
    (df : list A) : list A :=
  filter (λ r, key r = Some k) df.

(** [.size()]: the number of rows of each group. *)
Definition groupby_size {A K} `{Countable K} (key_le : relation K)
    `{!RelDecision key_le} (key : A → option K) (df : list A)
  : list (K * nat) :=
  groupby key_le key 0%nat (λ n _, S n) df.

(** Line 156. *)
Definition yearly_sales (df : list Row) : list (string * nat) :=
  groupby_size str_le (λ r, Some (Year r)) df.

(** Tuples of a two-column key compare lexicographically. *)
Definition pair_le (a b : string * string) : Prop :=
  match String.compare a.1 b.1 with
  | Lt => True
  | Eq => str_le a.2 b.2
  | Gt => False
  end.

#[global] Instance pair_le_dec : RelDecision pair_le.
Proof.
  intros a b. unfold pair_le. destruct (String.compare a.1 b.1); apply _.
Defined.

(** [pd.Categorical(values, categories, ordered)]: each value is stored
    as its position in [categories]; a value outside them has no code. *)
Record Categorical := {
  cat_codes : list (option nat);
  cat_categories : list string;
  cat_ordered : bool
}.

Definition pd_Categorical (values categories : list string)
    (ordered : bool) : Categorical :=
  {| cat_codes := map (λ v, fst <$> list_find (eq v) categories) values;
     cat_categories := categories;
     cat_ordered := ordered |}.

Definition month_order : list string :=
  ["Jan";"Feb";"Mar";"Apr";"May";"Jun";"Jul";"Aug";"Sep";"Oct";"Nov";"Dec"].

(** The table of lines 162-164, column by column. *)
Record MonthlySales := {
  ms_Year : list string;
  ms_MonthName : Categorical;
  ms_Sales : list nat
}.

Definition year_month_key (r : Row) : option (string * string) :=
  match MonthName r with
  | Some m => Some (Year r, m)
  | None => None
  end.

Definition monthly_sales (df : list Row) : MonthlySales :=
  let g := groupby_size pair_le year_month_key df in
  {| ms_Year := map (λ e, e.1.1) g;
     ms_MonthName := pd_Categorical (map (λ e, e.1.2) g) month_order true;
     ms_Sales := map snd g |}.

(** The named aggregations over [Price]: ["count"] counts the cells that
    are present, ["sum"] adds them, ["mean"] divides the two in float64
    and is NaN for a group without a present cell. *)
Record PriceAgg := { agg_count : nat; agg_sum : Z }.

Definition price_upd (a : PriceAgg) (r : Row) : PriceAgg :=
  match Price r with
  | Some p => {| agg_count := S (agg_count a); agg_sum := agg_sum a + p |}
  | None => a
  end.

(** The integer nearest to [N / D], for [0 < D]; of two nearest ones,
    the even one. *)
Definition round_half_even (N D : Z) : Z :=
  let q := (N / D)%Z in
  let r := (N mod D)%Z in
  if (2 * r <? D)%Z then q
  else if (D <? 2 * r)%Z then (q + 1)%Z
  else if Z.even q then q else (q + 1)%Z.

(** The float64 quotient of two integers that float64 holds exactly,
    [0 < d], as the rational it denotes: the exact quotient rounded to
    53 significant bits, ties to even.  [e] is the binary exponent of the
    quotient, [m] its 53-bit significand.  The exponent range of float64
    is not followed: the quotients of this file are far inside it. *)
Definition float64_div (n d : Z) : Q :=
  if (n =? 0)%Z then 0%Q else
  let a := Z.abs n in
  let k := (Z.log2 a - Z.log2 d)%Z in
  let e := if (d * 2 ^ Z.max k 0 <=? a * 2 ^ Z.max (- k) 0)%Z
           then k else (k - 1)%Z in
  let s := (52 - e)%Z in
  let m := round_half_even (a * 2 ^ Z.max s 0) (d * 2 ^ Z.max (- s) 0) in
  Qred ((Z.sgn n * m * 2 ^ Z.max (- s) 0) # Z.to_pos (2 ^ Z.max s 0)).

(** The same quotient through the IEEE 754 division of the standard
    library's float specification at binary64, to compare with. *)
Definition spec_float_value (x : spec_float) : option Q :=
  match x with
  | S754_zero _ => Some 0%Q
  | S754_finite s m e =>
      Some (Qred ((cond_Zopp s (Z.pos m) * 2 ^ Z.max e 0)
                  # Z.to_pos (2 ^ Z.max (- e) 0)))
  | _ => None
  end.

Definition ieee_div (n d : Z) : option Q :=
  spec_float_value
    (SFdiv 53 1024 (binary_normalize 53 1024 n 0 false)
                   (binary_normalize 53 1024 d 0 false)).

Definition agg_mean (a : PriceAgg) : option Q :=
  match agg_count a with
  | O => None
  | S _ => Some (float64_div (agg_sum a) (Z.of_nat (agg_count a)))
  end.

Definition groupby_price (key : Row → option string) (df : list Row)
  : list (string * PriceAgg) :=
  groupby str_le key {| agg_count := 0; agg_sum := 0 |} price_upd df.

Definition Zsum (l : list Z) : Z := foldr Z.add 0%Z l.

(** The prices that are present among the rows of key [k]. *)
Definition group_prices (key : Row → option string) (k : string)
    (df : list Row) : list Z :=
  omap Price (group_of key k df).

(** The prices of [df] are whole numbers whose absolute values add up to
    less than 2^53: then neither the int64 sum of the code wraps nor its
    float64 sum rounds, in whatever order the cells are added. *)
Definition price_bound (df : list Row) : Prop :=
  (Zsum (Z.abs <$> omap Price df) < 2 ^ 53)%Z.

(** Lines 178-182. *)
Record CitySummaryRow := {
  cs_City : string;
  cs_Sales : nat;
  cs_Revenue : Z;
  cs_Avg_Price : option Q
}.

Definition city_summary (df : list Row) : list CitySummaryRow :=
  map (λ e, {| cs_City := e.1; cs_Sales := agg_count e.2;
               cs_Revenue := agg_sum e.2; cs_Avg_Price := agg_mean e.2 |})
      (groupby_price (λ r, Some (City r)) df).

(** [sort_values("Revenue", ascending=False)]; which of two rows with the
    same revenue comes first is left to the sorting routine. *)
Definition Revenue_ge {R} (revenue : R → Z) (a b : R) : Prop :=
  (revenue b ≤ revenue a)%Z.

#[global] Instance Revenue_ge_dec {R} (revenue : R → Z)
  : RelDecision (Revenue_ge revenue).
Proof. intros a b. unfold Revenue_ge. apply _. Defined.

Definition sort_values_Revenue_desc {R} (revenue : R → Z) (t : list R)
  : list R :=
  merge_sort (Revenue_ge revenue) t.

(** Lines 190-193. *)
Record ModelPerfRow := {
  mp_CarModel : string;
  mp_Units_Sold : nat;
  mp_Revenue : Z
}.

Definition model_perf (df : list Row) : list ModelPerfRow :=
  sort_values_Revenue_desc mp_Revenue
    (map (λ e, {| mp_CarModel := e.1; mp_Units_Sold := agg_count e.2;
                  mp_Revenue := agg_sum e.2 |})
         (groupby_price CarModel df)).

(** Lines 215-218. *)
Record SalesPerfRow := {
  sp_SalesPersonID : string;
  sp_Cars_Sold : nat;
  sp_Revenue : Z
}.

Definition sales_perf (df : list Row) : list SalesPerfRow :=
  sort_values_Revenue_desc sp_Revenue
    (map (λ e, {| sp_SalesPersonID := e.1; sp_Cars_Sold := agg_count e.2;
                  sp_Revenue := agg_sum e.2 |})
         (groupby_price SalesPersonID df)).

(** ** Cross-tabulation (line 226)

    [pd.crosstab(index, columns)] pairs the two series, counts the rows
    of each pair that occurs, and unstacks the counts into a matrix over
    the sorted labels, filling the pairs that do not occur with 0. *)
Record CrossTab := {
  ct_index : list string;
  ct_columns : list string;
  ct_values : list (list nat)
}.

Definition crosstab_counts (index columns : list string)
  : gmap (string * string) nat :=
  group_fold Some 0 (λ n _, S n) (zip index columns).

Definition crosstab (index columns : list string) : CrossTab :=
  let tbl := crosstab_counts index columns in
  let keys := (map_to_list tbl).*1 in
  let idx := sorted (unique keys.*1) in
  let cols := sorted (unique keys.*2) in
  {| ct_index := idx;
     ct_columns := cols;
     ct_values :=
       map (λ r, map (λ c, default 0%nat (tbl !! (r, c))) cols) idx |}.

Definition cross_df (df : list Row) : CrossTab :=
  crosstab (map City df) (map FuelType df).

(** ** KPI cards (lines 124-145)

    The three numbers the cards show, before they are formatted:
    [shape[0]], and [sum()] and [mean()] of the [Price] column, which
    both skip the missing cells. *)
Definition kpi_cars_sold (fdf : list Row) : nat := length fdf.

Definition Price_agg (fdf : list Row) : PriceAgg :=
  fold_left price_upd fdf {| agg_count := 0; agg_sum := 0 |}.

Definition kpi_total_revenue (fdf : list Row) : Z := agg_sum (Price_agg fdf).

Definition kpi_avg_price (fdf : list Row) : option Q :=
  agg_mean (Price_agg fdf).

(** ** Charts of the product, fuel and salesperson tabs *)

(** [.head(n)]. *)
Definition head {R} (n : nat) (t : list R) : list R := take n t.

(** Lines 194 and 219: the bars drawn. *)
Definition model_perf_top (df : list Row) : list ModelPerfRow :=
  head 10 (model_perf df).

Definition sales_perf_top (df : list Row) : list SalesPerfRow :=
  head 10 (sales_perf df).

(** [Series.value_counts()]: the distinct values in order of first
    appearance, each with the number of its occurrences, then sorted by
    that number, largest first. *)
Definition Count_ge (a b : string * nat) : Prop := (b.2 ≤ a.2)%nat.

#[global] Instance Count_ge_dec : RelDecision Count_ge.
Proof. intros a b. unfold Count_ge. apply _. Defined.

Definition value_counts (col : list string) : list (string * nat) :=
  let tbl : gmap string nat := group_fold Some 0 (λ n _, S n) col in
  merge_sort Count_ge (map (λ v, (v, default 0 (tbl !! v))) (unique col)).

(** Lines 202-203. *)
Definition fuel_count (df : list Row) : list (string * nat) :=
  value_counts (map FuelType df).

(** Line 209: [groupby("FuelType")["Price"].sum()]. *)
Definition fuel_revenue (df : list Row) : list (string * Z) :=
  map (λ e, (e.1, agg_sum e.2)) (groupby_price (λ r, Some (FuelType r)) df).

(** ** Counting rows, for the statements below *)

(** The number of elements of [l] that [f] sends to [k]. *)
Definition count_by {A K} `{EqDecision K} (f : A → K) (k : K)
    (l : list A) : nat :=
  length (filter (λ x, f x = k) l).

(** The rows of [df] that have a key, the ones a group-by keeps. *)
Definition keyed {A K} (key : A → option K) (df : list A) : list A :=
  filter (λ r, is_Some (key r)) df.

(** The number of rows of [df] in city [r] with fuel type [c]. *)
Definition cell_count (df : list Row) (r c : string) : nat :=
  length (filter (λ x, City x = r ∧ FuelType x = c) df).

(** ** Sample rows *)

Definition sale_2023_01_05 : Timestamp :=
  {| ts_year := 2023; ts_month := January; ts_day := 5 |}.

Definition csv_dated : CsvRow :=
  {| csv_SaleDate := Some sale_2023_01_05; csv_City := "Delhi";
     csv_FuelType := "Petrol"; csv_CarModel := Some "Swift";
     csv_SalesPersonID := Some "SP01"; csv_Price := Some 500000%Z |}.

(** A line whose [SaleDate] cell is empty. *)
Definition csv_undated : CsvRow :=
  {| csv_SaleDate := None; csv_City := "Mumbai";
     csv_FuelType := "Diesel"; csv_CarModel := Some "Nexon";
     csv_SalesPersonID := Some "SP02"; csv_Price := Some 700000%Z |}.

(** The row [load_data] makes of [csv_dated] when no date is missing. *)
Definition row_dated : Row :=
  {| SaleDate := Some sale_2023_01_05; City := "Delhi";
     FuelType := "Petrol"; CarModel := Some "Swift";
     SalesPersonID := Some "SP01"; Price := Some 500000%Z;
     Year := "2023"; Month := Some 1%Z; MonthName := Some "Jan" |}.

(** A line whose [Price] cell is empty. *)
Definition csv_unpriced : CsvRow :=
  {| csv_SaleDate := Some sale_2023_01_05; csv_City := "Delhi";
     csv_FuelType := "Petrol"; csv_CarModel := Some "Swift";
     csv_SalesPersonID := Some "SP01"; csv_Price := None |}.

(** Three sales, used as a worked scenario. *)
Definition sale_row (y : Z) (city fuel : string) (price : Z) : CsvRow :=
  {| csv_SaleDate := Some {| ts_year := y; ts_month := March; ts_day := 1 |};
     csv_City := city; csv_FuelType := fuel; csv_CarModel := Some "Swift";
     csv_SalesPersonID := Some "SP01"; csv_Price := Some price |}.

Definition scenario : list Row :=
  load_data [sale_row 2023 "Delhi" "Petrol" 500000;
             sale_row 2023 "Mumbai" "Diesel" 700000;
             sale_row 2024 "Delhi" "Petrol" 550000].

(** * Properties *)

(** ** Filter *)

Lemma filtered_df_filter df year city fuel :
  filtered_df df year city fuel = filter (selected year city fuel) df.
Proof.
  unfold filtered_df, mask_and, isin.
  induction df as [|r df IH]; [done|].
  cbn [map zip_with getitem_mask]. rewrite filter_cons, <- IH.
  unfold selected at 1.
  destruct (decide (Year r ∈ year)) as [Hy|Hy];
    destruct (decide (City r ∈ city)) as [Hc|Hc];
    destruct (decide (FuelType r ∈ fuel)) as [Hf|Hf];
    rewrite ?(bool_decide_eq_true_2 _ Hy), ?(bool_decide_eq_false_2 _ Hy),
      ?(bool_decide_eq_true_2 _ Hc), ?(bool_decide_eq_false_2 _ Hc),
      ?(bool_decide_eq_true_2 _ Hf), ?(bool_decide_eq_false_2 _ Hf);
    cbn [andb]; case_decide; naive_solver.
Qed.

Lemma filter_all {A} (P : A → Prop) `{!∀ x, Decision (P x)} (l : list A) :
  Forall P l → filter P l = l.
Proof.
  induction 1 as [|x l Hx Hl IH]; [done|].
  rewrite filter_cons, IH. by case_decide.
Qed.

Lemma filter_none {A} (P : A → Prop) `{!∀ x, Decision (P x)} (l : list A) :
  Forall (λ x, ¬ P x) l → filter P l = [].
Proof.
  induction 1 as [|x l Hx Hl IH]; [done|].
  rewrite filter_cons, IH. by case_decide.
Qed.

(** ** Sidebar options *)

Lemma elem_of_unique_aux {A} `{EqDecision A} (seen l : list A) x :
  x ∈ unique_aux seen l ↔ x ∈ l ∧ x ∉ seen.
Proof.
  revert seen. induction l as [|y l IH]; intros seen; cbn [unique_aux].
  - rewrite elem_of_nil. set_solver.
  - case_decide as Hy.
    + rewrite IH, elem_of_cons. naive_solver.
    + rewrite !elem_of_cons, IH, elem_of_cons.
      destruct (decide (x = y)); naive_solver.
Qed.

Lemma elem_of_unique {A} `{EqDecision A} (l : list A) x :
  x ∈ unique l ↔ x ∈ l.
Proof. unfold unique. rewrite elem_of_unique_aux. set_solver. Qed.

Lemma NoDup_unique_aux {A} `{EqDecision A} (seen l : list A) :
  NoDup (unique_aux seen l).
Proof.
  revert seen. induction l as [|y l IH]; intros seen; cbn [unique_aux].
  - constructor.
  - case_decide; [apply IH|].
    constructor; [|apply IH].
    rewrite elem_of_unique_aux. set_solver.
Qed.

Lemma NoDup_unique {A} `{EqDecision A} (l : list A) : NoDup (unique l).
Proof. apply NoDup_unique_aux. Qed.

Lemma elem_of_sorted l x : x ∈ sorted l ↔ x ∈ l.
Proof. unfold sorted. by rewrite merge_sort_Permutation. Qed.

Lemma NoDup_sorted l : NoDup (sorted l) ↔ NoDup l.
Proof. unfold sorted. by rewrite merge_sort_Permutation. Qed.

Lemma elem_of_sidebar_options col x : x ∈ sidebar_options col ↔ x ∈ col.
Proof. unfold sidebar_options. by rewrite elem_of_sorted, elem_of_unique. Qed.

(** C1: a row of [df] is in [filtered_df] exactly when its year, its city
    and its fuel type are each among the selected values, and the rows
    kept stand in the order they have in [df]; this holds for all
    selections, the non-empty ones among them. *)
Theorem filtered_df_keeps_selected df year city fuel :
  filtered_df df year city fuel
    = filter (λ r, Year r ∈ year ∧ City r ∈ city ∧ FuelType r ∈ fuel) df
  ∧ (∀ r, r ∈ filtered_df df year city fuel
          ↔ r ∈ df ∧ Year r ∈ year ∧ City r ∈ city ∧ FuelType r ∈ fuel)
  ∧ filtered_df df year city fuel `sublist_of` df.
Proof.
  rewrite filtered_df_filter. split_and!.
  - done.
  - intros r. rewrite list_elem_of_filter. unfold selected. naive_solver.
  - apply sublist_filter.
Qed.

(** C4: when the selection of the years, of the cities or of the fuel
    types is empty, [filtered_df] has no row, whatever the other two
    selections are. *)
Theorem filtered_df_empty_selection df year city fuel :
  year = [] ∨ city = [] ∨ fuel = [] →
  filtered_df df year city fuel = [].
Proof.
  intros Hsel. rewrite filtered_df_filter. apply filter_none.
  apply Forall_forall. intros r _ (Hy & Hc & Hf).
  destruct Hsel as [->| [->| ->]]; by eapply not_elem_of_nil.
Qed.

(** C9: filtering the filtered table again with the same selections
    changes nothing. *)
Theorem filtered_df_idempotent df year city fuel :
  filtered_df (filtered_df df year city fuel) year city fuel
  = filtered_df df year city fuel.
Proof.
  rewrite !filtered_df_filter. apply filter_all.
  apply Forall_forall. intros r Hr.
  by apply list_elem_of_filter in Hr as [Hr _].
Qed.

(** C10: with the default selections of the sidebar, the sorted distinct
    values of the three columns of [df], the filter returns [df]. *)
Theorem filtered_df_default_identity df :
  filtered_df df
    (sidebar_options (map Year df))
    (sidebar_options (map City df))
    (sidebar_options (map FuelType df))
  = df.
Proof.
  rewrite filtered_df_filter. apply filter_all.
  apply Forall_forall. intros r Hr. unfold selected.
  rewrite !elem_of_sidebar_options.
  split_and!; by apply list_elem_of_fmap_2.
Qed.

(** ** Derived date columns *)

Lemma hasnans_false col :
  Forall is_Some col → hasnans col = false.
Proof.
  intros Hall. unfold hasnans. apply negb_false_iff, forallb_forall.
  intros c Hc. apply bool_decide_eq_true_2.
  apply (proj1 (Forall_forall _ _) Hall), list_elem_of_In, Hc.
Qed.

Lemma assign_columns_map csv (fy : CsvRow → string)
    (fm : CsvRow → option Z) (fn : CsvRow → option string) :
  assign_columns csv (map fy csv) (map fm csv) (map fn csv)
  = map (λ r, {| SaleDate := csv_SaleDate r; City := csv_City r;
                 FuelType := csv_FuelType r; CarModel := csv_CarModel r;
                 SalesPersonID := csv_SalesPersonID r;
                 Price := csv_Price r;
                 Year := fy r; Month := fm r; MonthName := fn r |}) csv.
Proof. induction csv as [|r csv IH]; [done|]. cbn. by rewrite IH. Qed.

Lemma load_data_dated csv :
  Forall (λ r, is_Some (csv_SaleDate r)) csv →
  load_data csv
  = map (λ r, {| SaleDate := csv_SaleDate r; City := csv_City r;
                 FuelType := csv_FuelType r; CarModel := csv_CarModel r;
                 SalesPersonID := csv_SalesPersonID r;
                 Price := csv_Price r;
                 Year := str_int (from_option ts_year 0%Z (csv_SaleDate r));
                 Month := Some (from_option
                                  (λ t, month_number (ts_month t)) 0%Z
                                  (csv_SaleDate r));
                 MonthName := (λ t, strftime_b (ts_month t))
                                <$> csv_SaleDate r |}) csv.
Proof.
  intros Hall. unfold load_data, dt_year, dt_month, dt_field, dt_strftime_b.
  rewrite hasnans_false by (by apply Forall_fmap).
  cbn [astype_str num_cells]. rewrite !map_map.
  apply assign_columns_map.
Qed.

Lemma month_number_range m : (1 ≤ month_number m ≤ 12)%Z.
Proof. destruct m; cbn; lia. Qed.

Lemma month_order_lookup m :
  month_order !! Z.to_nat (month_number m - 1) = Some (strftime_b m).
Proof. by destruct m. Qed.

(** C8, as the code has it: when no row of the source lacks its sale
    date, every row that [load_data] returns has a date, its [Year] is the
    decimal string of that date's year, its [Month] is that date's month
    number, between 1 and 12, and its [MonthName] is the abbreviation
    that stands at that month's place in the calendar list. *)
Theorem load_data_derived_columns csv r :
  Forall (λ c, is_Some (csv_SaleDate c)) csv →
  r ∈ load_data csv →
  ∃ t, SaleDate r = Some t
    ∧ Year r = str_int (ts_year t)
    ∧ Month r = Some (month_number (ts_month t))
    ∧ (1 ≤ month_number (ts_month t) ≤ 12)%Z
    ∧ MonthName r = Some (strftime_b (ts_month t))
    ∧ month_order !! Z.to_nat (month_number (ts_month t) - 1)
      = MonthName r.
Proof.
  intros Hall Hr. rewrite (load_data_dated _ Hall) in Hr.
  apply list_elem_of_fmap in Hr as (c & -> & Hc).
  apply (proj1 (Forall_forall _ _) Hall) in Hc as [t Ht].
  exists t. cbn. rewrite Ht. cbn.
  split_and!; try done; [apply month_number_range..|apply month_order_lookup].
Qed.

(** ** Group-by *)

Section groupby_facts.
Context {A K V : Type} `{Countable K}.
Context (key_le : relation K) `{!RelDecision key_le}.
Context (key : A → option K) (init : V) (upd : V → A → V).

Lemma group_fold_lookup_from (df : list A) (tbl : gmap K V) k :
  fold_left (group_step key init upd) df tbl !! k
  = match group_of key k df with
    | [] => tbl !! k
    | rs => Some (fold_left upd rs (default init (tbl !! k)))
    end.
Proof.
  revert tbl. induction df as [|r df IH]; intros tbl; [done|].
  cbn [fold_left]. rewrite IH. unfold group_of. rewrite filter_cons.
  unfold group_step at 1 2. destruct (key r) as [k'|] eqn:Hk.
  - destruct (decide (k' = k)) as [->|Hne].
    + rewrite decide_True by done. rewrite lookup_insert_eq. cbn.
      by destruct (filter _ df).
    + rewrite decide_False by congruence.
      by rewrite lookup_insert_ne.
  - by rewrite decide_False.
Qed.

Lemma group_fold_lookup (df : list A) k :
  group_fold key init upd df !! k
  = match group_of key k df with
    | [] => None
    | rs => Some (fold_left upd rs init)
    end.
Proof.
  unfold group_fold. rewrite group_fold_lookup_from, lookup_empty.
  done.
Qed.

Lemma group_of_nonempty k df :
  group_of key k df ≠ [] ↔ ∃ r, r ∈ df ∧ key r = Some k.
Proof.
  unfold group_of. split.
  - destruct (filter _ df) as [|r rs] eqn:Hf; [done|]. intros _.
    assert (r ∈ filter (λ r, key r = Some k) df) as Hin
      by (rewrite Hf; left).
    apply list_elem_of_filter in Hin as [Hk Hr]. by exists r.
  - intros (r & Hr & Hk) Hnil.
    assert (r ∈ filter (λ r, key r = Some k) df) as Hin
      by by apply list_elem_of_filter.
    rewrite Hnil in Hin. by apply not_elem_of_nil in Hin.
Qed.

Lemma elem_of_groupby (df : list A) k v :
  (k, v) ∈ groupby key_le key init upd df
  ↔ group_of key k df ≠ [] ∧ v = fold_left upd (group_of key k df) init.
Proof.
  unfold groupby, group_rows. rewrite merge_sort_Permutation.
  rewrite elem_of_map_to_list, group_fold_lookup.
  destruct (group_of key k df); naive_solver.
Qed.

Lemma elem_of_groupby_keys (df : list A) k :
  k ∈ (groupby key_le key init upd df).*1
  ↔ ∃ r, r ∈ df ∧ key r = Some k.
Proof.
  rewrite <- group_of_nonempty, list_elem_of_fmap. split.
  - intros ([k' v] & -> & Hin). by apply elem_of_groupby in Hin as [Hne _].
  - intros Hne. exists (k, fold_left upd (group_of key k df) init).
    split; [done|]. by apply elem_of_groupby.
Qed.

Lemma NoDup_groupby_keys (df : list A) :
  NoDup (groupby key_le key init upd df).*1.
Proof.
  unfold groupby, group_rows. rewrite merge_sort_Permutation.
  apply NoDup_fst_map_to_list.
Qed.
End groupby_facts.

(** ** Price aggregates *)

Lemma fold_price_upd rs a :
  fold_left price_upd rs a
  = {| agg_count := agg_count a + length (omap Price rs);
       agg_sum := agg_sum a + Zsum (omap Price rs) |}.
Proof.
  revert a. induction rs as [|r rs IH]; intros [c s].
  - cbn. f_equal; lia.
  - cbn [fold_left]. rewrite IH. unfold price_upd. cbn [omap list_omap].
    destruct (Price r) as [p|]; cbn; fold (Zsum (omap Price rs));
      f_equal; lia.
Qed.

Lemma elem_of_groupby_price key df k a :
  (k, a) ∈ groupby_price key df →
  agg_count a = length (group_prices key k df)
  ∧ agg_sum a = Zsum (group_prices key k df).
Proof.
  unfold groupby_price. intros [_ ->]%elem_of_groupby.
  rewrite fold_price_upd. cbn. unfold group_prices. split; lia.
Qed.

Lemma round_half_even_near N D :
  (0 < D)%Z → (2 * Z.abs (round_half_even N D * D - N) <= D)%Z.
Proof.
  intros HD. unfold round_half_even.
  pose proof (Z.div_mod N D ltac:(lia)) as Hdm.
  pose proof (Z.mod_pos_bound N D HD) as Hr.
  destruct (Z.ltb_spec (2 * (N mod D)) D); [nia|].
  destruct (Z.ltb_spec D (2 * (N mod D))); [nia|].
  destruct (Z.even (N / D)); nia.
Qed.

Lemma float64_exponent a d :
  (0 < a < 2 ^ 53)%Z → (0 < d)%Z →
  let k := (Z.log2 a - Z.log2 d)%Z in
  let e := if (d * 2 ^ Z.max k 0 <=? a * 2 ^ Z.max (- k) 0)%Z
           then k else (k - 1)%Z in
  (0 <= 52 - e)%Z ∧ (2 ^ 52 * d <= a * 2 ^ (52 - e))%Z.
Proof.
  intros Ha Hd k e.
  pose proof (Z.log2_spec a ltac:(lia)) as [Hla1 Hla2].
  pose proof (Z.log2_spec d Hd) as [Hld1 Hld2].
  pose proof (Z.log2_nonneg a) as Hla0.
  pose proof (Z.log2_nonneg d) as Hld0.
  assert (Z.log2 a < 53)%Z as Hla53.
  { apply Z.log2_lt_pow2; lia. }
  subst e.
  destruct (Z.leb_spec (d * 2 ^ Z.max k 0) (a * 2 ^ Z.max (- k) 0))
    as [Ht|Ht].
  - split; [lia|]. destruct (Z.le_gt_cases 0 k) as [Hk|Hk].
    + rewrite Z.max_l, Z.max_r in Ht by lia. rewrite Z.mul_1_r in Ht.
      replace (2 ^ 52)%Z with (2 ^ k * 2 ^ (52 - k))%Z
        by (rewrite <- Z.pow_add_r by lia; f_equal; lia).
      assert (0 < 2 ^ (52 - k))%Z by (apply Z.pow_pos_nonneg; lia).
      nia.
    + rewrite Z.max_r, Z.max_l in Ht by lia. rewrite Z.mul_1_r in Ht.
      replace (2 ^ (52 - k))%Z with (2 ^ 52 * 2 ^ (- k))%Z
        by (rewrite <- Z.pow_add_r by lia; f_equal; lia).
      nia.
  - split; [lia|].
    replace (52 - (k - 1))%Z with (53 - Z.log2 a + Z.log2 d)%Z by lia.
    assert (2 ^ Z.log2 a * 2 ^ (53 - Z.log2 a + Z.log2 d)
            = 2 ^ 52 * 2 ^ Z.succ (Z.log2 d))%Z as Heq.
    { rewrite <- !Z.pow_add_r by lia. f_equal. lia. }
    assert (0 < 2 ^ (53 - Z.log2 a + Z.log2 d))%Z
      by (apply Z.pow_pos_nonneg; lia).
    nia.
Qed.

(** The float64 quotient is within the relative error 2^-53 of the exact
    one. *)
Lemma float64_div_error n d :
  (Z.abs n < 2 ^ 53)%Z → (0 < d)%Z →
  (Qabs (float64_div n d - (n # Z.to_pos d))
   <= (1 # 2 ^ 53) * Qabs (n # Z.to_pos d))%Q.
Proof.
  intros Hn Hd. unfold float64_div.
  destruct (Z.eqb_spec n 0) as [->|Hn0].
  { cbn. unfold Qle. cbn. lia. }
  pose proof (float64_exponent (Z.abs n) d ltac:(lia) Hd) as [Hs Hlow].
  cbv zeta in Hs, Hlow.
  set (k := (Z.log2 (Z.abs n) - Z.log2 d)%Z) in *.
  set (e := if (d * 2 ^ Z.max k 0 <=? Z.abs n * 2 ^ Z.max (- k) 0)%Z
            then k else (k - 1)%Z) in *.
  cbv zeta. fold k. fold e.
  rewrite (Z.max_l (52 - e) 0), (Z.max_r (- (52 - e)) 0) by lia.
  rewrite Z.pow_0_r, !Z.mul_1_r.
  set (P := (2 ^ (52 - e))%Z) in *.
  assert (0 < P)%Z as HP by (apply Z.pow_pos_nonneg; lia).
  pose proof (round_half_even_near (Z.abs n * P) d Hd) as Hnear.
  set (m := round_half_even (Z.abs n * P) d) in *.
  rewrite Qred_correct.
  unfold Qle, Qabs, Qminus, Qplus, Qopp, Qmult. cbn [Qnum Qden].
  rewrite !Pos2Z.inj_mul, !Z2Pos.id by lia.
  change (Z.pos (2 ^ 53)) with (2 ^ 53)%Z.
  assert (Z.abs (Z.sgn n * m * d + - n * P)
          = Z.abs (m * d - Z.abs n * P))%Z as ->.
  { destruct (Z.sgn_spec n) as [[? ->]|[[? ->]|[? ->]]]; lia. }
  nia.
Qed.

(** On a sample of numerators and denominators the quotient is the one
    the IEEE 754 division of the standard library gives. *)
Example float64_div_is_ieee_div :
  forallb
    (λ p, match ieee_div p.1 p.2 with
          | Some q => Qeq_bool q (float64_div p.1 p.2)
          | None => false
          end)
    (n ← [0; 1; -1; 2; 3; -5; 7; 100; 12345; -99999; 500000; 700000;
          1050000; 9007199254740991; -9007199254740991;
          4503599627370497; 4503599627370495; 6004799503160661]%Z;
     d ← [1; 2; 3; 5; 7; 10; 11; 13; 1000; 4097; 65537; 999999;
          123456789]%Z;
     [(n, d)])
  = true.
Proof. by vm_compute. Qed.

Lemma agg_mean_spec a :
  match agg_mean a with
  | Some q => agg_count a ≠ 0
  | None => agg_count a = 0
  end.
Proof. unfold agg_mean. by destruct (agg_count a). Qed.

Lemma agg_mean_None a : agg_mean a = None ↔ agg_count a = 0.
Proof. unfold agg_mean. by destruct (agg_count a). Qed.

Lemma agg_mean_error a q :
  (Z.abs (agg_sum a) < 2 ^ 53)%Z →
  agg_mean a = Some q →
  (Qabs (q - inject_Z (agg_sum a) / inject_Z (Z.of_nat (agg_count a)))
   <= (1 # 2 ^ 53)
      * Qabs (inject_Z (agg_sum a) / inject_Z (Z.of_nat (agg_count a))))%Q.
Proof.
  intros Hb. unfold agg_mean. destruct (agg_count a) as [|c]; [done|].
  intros [= <-].
  pose proof (float64_div_error (agg_sum a) (Z.of_nat (S c)) Hb
                ltac:(lia)) as Herr.
  assert (inject_Z (agg_sum a) / inject_Z (Z.of_nat (S c))
          == agg_sum a # Z.to_pos (Z.of_nat (S c)))%Q as ->; [|done].
  rewrite (Qmake_Qdiv (agg_sum a) (Z.to_pos (Z.of_nat (S c)))).
  by rewrite Z2Pos.id by lia.
Qed.

Lemma Zsum_abs_le l : (Z.abs (Zsum l) <= Zsum (Z.abs <$> l))%Z.
Proof.
  induction l as [|x l IH]; cbn; [done|].
  fold (Zsum l) (Zsum (Z.abs <$> l)). lia.
Qed.

Lemma Zsum_abs_nonneg l : (0 <= Zsum (Z.abs <$> l))%Z.
Proof.
  induction l as [|x l IH]; cbn; [done|]. fold (Zsum (Z.abs <$> l)). lia.
Qed.

Lemma Zsum_abs_filter (P : Row → Prop) `{!∀ r, Decision (P r)} df :
  (Zsum (Z.abs <$> omap Price (filter P df))
   <= Zsum (Z.abs <$> omap Price df))%Z.
Proof.
  induction df as [|r df IH]; [done|]. rewrite filter_cons.
  pose proof (Zsum_abs_nonneg (omap Price df)).
  destruct (decide (P r)) as [HP|HP]; cbn;
    destruct (Price r) as [z|]; cbn;
    fold (Zsum (Z.abs <$> omap Price df)) in *;
    try fold (Zsum (Z.abs <$> omap Price (filter P df))) in *; lia.
Qed.

Lemma price_bound_filter (P : Row → Prop) `{!∀ r, Decision (P r)} df :
  price_bound df → price_bound (filter P df).
Proof.
  unfold price_bound. pose proof (Zsum_abs_filter P df). lia.
Qed.

Lemma price_bound_group key k df :
  price_bound df → (Z.abs (Zsum (group_prices key k df)) < 2 ^ 53)%Z.
Proof.
  unfold price_bound, group_prices, group_of. intros Hb.
  pose proof (Zsum_abs_le (omap Price (filter (λ r, key r = Some k) df))).
  pose proof (Zsum_abs_filter (λ r, key r = Some k) df). lia.
Qed.

Lemma group_prices_all_present key k df :
  Forall (λ r, is_Some (Price r)) df →
  length (group_prices key k df) = length (group_of key k df).
Proof.
  intros Hall. unfold group_prices.
  assert (Forall (λ r, is_Some (Price r)) (group_of key k df)) as Hg.
  { apply Forall_forall. intros r [_ Hr]%list_elem_of_filter.
    by apply (proj1 (Forall_forall _ _) Hall). }
  induction Hg as [|r rs [p Hp] _ IH]; [done|].
  cbn. rewrite Hp. cbn. by rewrite IH.
Qed.

Lemma elem_of_sort_values_Revenue_desc {R} (revenue : R → Z) t e :
  e ∈ sort_values_Revenue_desc revenue t ↔ e ∈ t.
Proof. unfold sort_values_Revenue_desc. by rewrite merge_sort_Permutation. Qed.

Lemma fmap_sort_values_Revenue_desc {R B} (revenue : R → Z) (f : R → B) t :
  f <$> sort_values_Revenue_desc revenue t ≡ₚ f <$> t.
Proof. unfold sort_values_Revenue_desc. by rewrite merge_sort_Permutation. Qed.

(** C2, as the code has it: each of the three summary tables has one row
    per distinct value of its key column and no other row; in each row
    the count is the number of rows of [df] with that key whose price is
    present, and the mean, which only the city table carries, is missing
    exactly when that count is 0.  When the prices are whole numbers
    whose absolute values add up to less than 2^53, so that neither the
    int64 sum wraps nor the float64 sum rounds, the sum of each row adds
    the present prices of its key, and the mean is the float64 quotient
    of the sum by the count: within the relative error 2^-53 of their
    exact quotient. *)
Theorem groupby_price_summaries df :
  (NoDup (cs_City <$> city_summary df)
   ∧ (∀ k, k ∈ cs_City <$> city_summary df ↔ ∃ r, r ∈ df ∧ City r = k)
   ∧ ∀ e, e ∈ city_summary df →
       cs_Sales e
         = length (group_prices (λ r, Some (City r)) (cs_City e) df)
       ∧ (cs_Avg_Price e = None ↔ cs_Sales e = 0))
  ∧ (NoDup (mp_CarModel <$> model_perf df)
     ∧ (∀ k, k ∈ mp_CarModel <$> model_perf df
             ↔ ∃ r, r ∈ df ∧ CarModel r = Some k)
     ∧ ∀ e, e ∈ model_perf df →
         mp_Units_Sold e
         = length (group_prices CarModel (mp_CarModel e) df))
  ∧ (NoDup (sp_SalesPersonID <$> sales_perf df)
     ∧ (∀ k, k ∈ sp_SalesPersonID <$> sales_perf df
             ↔ ∃ r, r ∈ df ∧ SalesPersonID r = Some k)
     ∧ ∀ e, e ∈ sales_perf df →
         sp_Cars_Sold e
         = length (group_prices SalesPersonID (sp_SalesPersonID e) df))
  ∧ (price_bound df →
     (∀ e, e ∈ city_summary df →
        cs_Revenue e
          = Zsum (group_prices (λ r, Some (City r)) (cs_City e) df)
        ∧ cs_Avg_Price e
          = match cs_Sales e with
            | O => None
            | S _ => Some (float64_div (cs_Revenue e)
                             (Z.of_nat (cs_Sales e)))
            end
        ∧ ∀ q, cs_Avg_Price e = Some q →
            (Qabs (q - inject_Z (cs_Revenue e)
                       / inject_Z (Z.of_nat (cs_Sales e)))
             <= (1 # 2 ^ 53)
                * Qabs (inject_Z (cs_Revenue e)
                        / inject_Z (Z.of_nat (cs_Sales e))))%Q)
     ∧ (∀ e, e ∈ model_perf df →
          mp_Revenue e = Zsum (group_prices CarModel (mp_CarModel e) df))
     ∧ (∀ e, e ∈ sales_perf df →
          sp_Revenue e
          = Zsum (group_prices SalesPersonID (sp_SalesPersonID e) df))).
Proof.
  split_and!.
  - unfold city_summary. rewrite <- list_fmap_compose.
    apply (NoDup_groupby_keys str_le).
  - intros k. unfold city_summary. rewrite <- list_fmap_compose.
    change (cs_City ∘ _) with (@fst string PriceAgg).
    unfold groupby_price. rewrite elem_of_groupby_keys. naive_solver.
  - intros e. unfold city_summary.
    intros ([k a] & -> & Hin)%list_elem_of_fmap. cbn.
    apply elem_of_groupby_price in Hin as [Hc Hs].
    split; [done|]. apply agg_mean_None.
  - unfold model_perf. rewrite fmap_sort_values_Revenue_desc.
    rewrite <- list_fmap_compose. apply (NoDup_groupby_keys str_le).
  - intros k. unfold model_perf. rewrite fmap_sort_values_Revenue_desc.
    rewrite <- list_fmap_compose.
    change (mp_CarModel ∘ _) with (@fst string PriceAgg).
    unfold groupby_price. by rewrite elem_of_groupby_keys.
  - intros e. unfold model_perf. rewrite elem_of_sort_values_Revenue_desc.
    intros ([k a] & -> & Hin)%list_elem_of_fmap. cbn.
    by apply elem_of_groupby_price in Hin as [? _].
  - unfold sales_perf. rewrite fmap_sort_values_Revenue_desc.
    rewrite <- list_fmap_compose. apply (NoDup_groupby_keys str_le).
  - intros k. unfold sales_perf. rewrite fmap_sort_values_Revenue_desc.
    rewrite <- list_fmap_compose.
    change (sp_SalesPersonID ∘ _) with (@fst string PriceAgg).
    unfold groupby_price. by rewrite elem_of_groupby_keys.
  - intros e. unfold sales_perf. rewrite elem_of_sort_values_Revenue_desc.
    intros ([k a] & -> & Hin)%list_elem_of_fmap. cbn.
    by apply elem_of_groupby_price in Hin as [? _].
  - intros Hb. split_and!.
    + intros e. unfold city_summary.
      intros ([k a] & -> & Hin)%list_elem_of_fmap. cbn.
      apply elem_of_groupby_price in Hin as [Hc Hs].
      split_and!; [done|done|]. intros q Hq.
      apply agg_mean_error; [|done]. rewrite Hs.
      by apply price_bound_group.
    + intros e. unfold model_perf.
      rewrite elem_of_sort_values_Revenue_desc.
      intros ([k a] & -> & Hin)%list_elem_of_fmap. cbn.
      by apply elem_of_groupby_price in Hin as [_ ?].
    + intros e. unfold sales_perf.
      rewrite elem_of_sort_values_Revenue_desc.
      intros ([k a] & -> & Hin)%list_elem_of_fmap. cbn.
      by apply elem_of_groupby_price in Hin as [_ ?].
Qed.

(** ** Cross-tabulation *)

Lemma fold_size {A} (rs : list A) n :
  fold_left (λ n _, S n) rs n = n + length rs.
Proof.
  revert n. induction rs as [|r rs IH]; intros n; cbn; [lia|].
  rewrite IH. lia.
Qed.

Lemma length_filter_fmap {A B} (f : A → B) (P : B → Prop)
    `{!∀ y, Decision (P y)} (l : list A) :
  length (filter P (f <$> l)) = length (filter (λ x, P (f x)) l).
Proof.
  induction l as [|x l IH]; [done|].
  rewrite fmap_cons, !filter_cons. case_decide; cbn; by rewrite IH.
Qed.

Lemma zip_fmap_same {A B C} (f : A → B) (g : A → C) (l : list A) :
  zip (map f l) (map g l) = (λ x, (f x, g x)) <$> l.
Proof. induction l as [|x l IH]; [done|]. cbn. by rewrite IH. Qed.

Section counting.
Context {A K : Type} `{EqDecision K} (f : A → K).

Lemma sum_list_fmap_add {X} (a b : X → nat) (ks : list X) :
  sum_list ((λ k, a k + b k) <$> ks)
  = sum_list (a <$> ks) + sum_list (b <$> ks).
Proof. induction ks as [|k ks IH]; cbn; [done|]. rewrite IH. lia. Qed.

Lemma sum_list_indicator_out (k0 : K) (ks : list K) :
  k0 ∉ ks →
  sum_list ((λ k, if decide (k0 = k) then 1 else 0) <$> ks) = 0.
Proof.
  induction ks as [|k ks IH]; [done|].
  rewrite not_elem_of_cons. intros [Hne Hout]. cbn.
  rewrite decide_False by done. by rewrite IH.
Qed.

Lemma sum_list_indicator (k0 : K) (ks : list K) :
  NoDup ks → k0 ∈ ks →
  sum_list ((λ k, if decide (k0 = k) then 1 else 0) <$> ks) = 1.
Proof.
  induction 1 as [|k ks Hk Hnd IH]; [by intros ?%not_elem_of_nil|].
  cbn. destruct (decide (k0 = k)) as [->|Hne].
  - intros _. by rewrite sum_list_indicator_out.
  - rewrite elem_of_cons. intros [?|Hin]; [done|]. by rewrite IH.
Qed.

(** Counting the rows key by key counts every row once. *)
Lemma sum_list_count_by (ks : list K) (l : list A) :
  NoDup ks → Forall (λ x, f x ∈ ks) l →
  sum_list ((λ k, count_by f k l) <$> ks) = length l.
Proof.
  intros Hnd. induction 1 as [|x l Hx Hl IH].
  - clear Hnd. induction ks as [|k ks IHks]; [done|]. exact IHks.
  - cbn [length]. rewrite <- IH.
    trans (sum_list ((λ k, (if decide (f x = k) then 1 else 0)
                           + count_by f k l) <$> ks)).
    + f_equal. apply list_fmap_ext. intros _ k _.
      unfold count_by. rewrite filter_cons. by case_decide.
    + by rewrite sum_list_fmap_add, sum_list_indicator.
Qed.
End counting.

Section crosstab_facts.
Context (index columns : list string).

Lemma crosstab_counts_lookup k :
  crosstab_counts index columns !! k
  = match count_by id k (zip index columns) with
    | O => None
    | S n => Some (S n)
    end.
Proof.
  unfold crosstab_counts. rewrite group_fold_lookup.
  unfold group_of, count_by.
  rewrite (list_filter_iff (λ r, Some r = Some k) (λ x, id x = k))
    by (intros x; cbn; naive_solver).
  destruct (filter _ _) as [|p ps]; [done|].
  by rewrite fold_size.
Qed.

Lemma crosstab_cell r c :
  default 0 (crosstab_counts index columns !! (r, c))
  = count_by id (r, c) (zip index columns).
Proof. rewrite crosstab_counts_lookup. by destruct (count_by _ _ _). Qed.

Lemma elem_of_crosstab_keys k :
  k ∈ (map_to_list (crosstab_counts index columns)).*1 ↔ k ∈ zip index columns.
Proof.
  rewrite list_elem_of_fmap. split.
  - intros ([k' n] & -> & Hin). apply elem_of_map_to_list in Hin.
    unfold crosstab_counts in Hin. rewrite group_fold_lookup in Hin.
    destruct (group_of Some k' (zip index columns)) as [|q qs] eqn:Hg;
      [done|].
    assert (group_of Some k' (zip index columns) ≠ []) as Hne
      by by rewrite Hg.
    by apply group_of_nonempty in Hne as (x & Hx & [= ->]).
  - intros Hin.
    assert (group_of Some k (zip index columns) ≠ []) as Hne
      by (apply group_of_nonempty; eauto).
    exists (k, fold_left (λ n _, S n)
                 (group_of Some k (zip index columns)) 0).
    split; [done|]. apply elem_of_map_to_list.
    unfold crosstab_counts. rewrite group_fold_lookup.
    by destruct (group_of Some k (zip index columns)).
Qed.

Lemma elem_of_crosstab_index r :
  r ∈ ct_index (crosstab index columns)
  ↔ ∃ c, (r, c) ∈ zip index columns.
Proof.
  cbn. rewrite elem_of_sorted, elem_of_unique, list_elem_of_fmap. split.
  - intros ([r' c] & -> & Hin%elem_of_crosstab_keys). by exists c.
  - intros [c Hin%elem_of_crosstab_keys]. by exists (r, c).
Qed.

Lemma elem_of_crosstab_columns c :
  c ∈ ct_columns (crosstab index columns)
  ↔ ∃ r, (r, c) ∈ zip index columns.
Proof.
  cbn. rewrite elem_of_sorted, elem_of_unique, list_elem_of_fmap. split.
  - intros ([r c'] & -> & Hin%elem_of_crosstab_keys). by exists r.
  - intros [r Hin%elem_of_crosstab_keys]. by exists (r, c).
Qed.

Lemma NoDup_crosstab_index : NoDup (ct_index (crosstab index columns)).
Proof. cbn. apply NoDup_sorted, NoDup_unique. Qed.

Lemma NoDup_crosstab_columns : NoDup (ct_columns (crosstab index columns)).
Proof. cbn. apply NoDup_sorted, NoDup_unique. Qed.

Lemma crosstab_values :
  ct_values (crosstab index columns)
  = (λ r, (λ c, count_by id (r, c) (zip index columns))
            <$> ct_columns (crosstab index columns))
      <$> ct_index (crosstab index columns).
Proof.
  cbn. apply list_fmap_ext. intros _ r _.
  apply list_fmap_ext. intros _ c _. apply crosstab_cell.
Qed.
End crosstab_facts.

Lemma cross_df_pairs df :
  zip (map City df) (map FuelType df) = (λ x, (City x, FuelType x)) <$> df.
Proof. apply zip_fmap_same. Qed.

Lemma cross_df_count df r c :
  count_by id (r, c) (zip (map City df) (map FuelType df))
  = cell_count df r c.
Proof.
  rewrite cross_df_pairs. unfold count_by, cell_count.
  rewrite length_filter_fmap. f_equal. apply list_filter_iff.
  intros x. cbn. naive_solver.
Qed.

Lemma cross_df_values df :
  ct_values (cross_df df)
  = (λ r, cell_count df r <$> ct_columns (cross_df df))
      <$> ct_index (cross_df df).
Proof.
  unfold cross_df. rewrite crosstab_values.
  apply list_fmap_ext. intros _ r _.
  apply list_fmap_ext. intros _ c _. apply cross_df_count.
Qed.

Lemma elem_of_cross_df_index df r :
  r ∈ ct_index (cross_df df) ↔ ∃ x, x ∈ df ∧ City x = r.
Proof.
  unfold cross_df. rewrite elem_of_crosstab_index, cross_df_pairs. split.
  - intros [c (x & [= -> ->] & Hx)%list_elem_of_fmap]. eauto.
  - intros (x & Hx & <-). exists (FuelType x).
    apply list_elem_of_fmap. eauto.
Qed.

Lemma elem_of_cross_df_columns df c :
  c ∈ ct_columns (cross_df df) ↔ ∃ x, x ∈ df ∧ FuelType x = c.
Proof.
  unfold cross_df. rewrite elem_of_crosstab_columns, cross_df_pairs. split.
  - intros [r (x & [= -> ->] & Hx)%list_elem_of_fmap]. eauto.
  - intros (x & Hx & <-). exists (City x).
    apply list_elem_of_fmap. eauto.
Qed.

Lemma sum_list_concat (ll : list (list nat)) :
  sum_list (concat ll) = sum_list (sum_list <$> ll).
Proof.
  induction ll as [|l ll IH]; [done|].
  cbn. by rewrite sum_list_with_app, IH.
Qed.

Lemma cross_df_row_total df r :
  sum_list (cell_count df r <$> ct_columns (cross_df df))
  = count_by City r df.
Proof.
  unfold count_by at 1.
  rewrite <- (sum_list_count_by FuelType (ct_columns (cross_df df))
                (filter (λ x, City x = r) df)).
  - f_equal. apply list_fmap_ext. intros _ c _.
    unfold cell_count, count_by. rewrite list_filter_filter.
    f_equal. apply list_filter_iff. naive_solver.
  - apply NoDup_crosstab_columns.
  - apply Forall_forall. intros x [_ Hx]%list_elem_of_filter.
    apply elem_of_cross_df_columns. eauto.
Qed.

Lemma cross_df_column_total df c :
  sum_list ((λ r, cell_count df r c) <$> ct_index (cross_df df))
  = count_by FuelType c df.
Proof.
  unfold count_by at 1.
  rewrite <- (sum_list_count_by City (ct_index (cross_df df))
                (filter (λ x, FuelType x = c) df)).
  - f_equal. apply list_fmap_ext. intros _ r _.
    unfold cell_count, count_by. by rewrite list_filter_filter.
  - apply NoDup_crosstab_index.
  - apply Forall_forall. intros x [_ Hx]%list_elem_of_filter.
    apply elem_of_cross_df_index. eauto.
Qed.

(** C3: the row labels of [cross_df] are the distinct cities of [df] and
    its column labels the distinct fuel types, each once; every pair of a
    row label and a column label has a cell, which holds the number of
    rows of [df] with that city and that fuel type, 0 when there is
    none. *)
Theorem cross_df_dense df :
  NoDup (ct_index (cross_df df))
  ∧ (∀ r, r ∈ ct_index (cross_df df) ↔ ∃ x, x ∈ df ∧ City x = r)
  ∧ NoDup (ct_columns (cross_df df))
  ∧ (∀ c, c ∈ ct_columns (cross_df df) ↔ ∃ x, x ∈ df ∧ FuelType x = c)
  ∧ (∀ i j r c,
       ct_index (cross_df df) !! i = Some r →
       ct_columns (cross_df df) !! j = Some c →
       ∃ row, ct_values (cross_df df) !! i = Some row
         ∧ row !! j = Some (cell_count df r c)
         ∧ ((¬ ∃ x, x ∈ df ∧ City x = r ∧ FuelType x = c) →
            row !! j = Some 0)).
Proof.
  split_and!.
  - apply NoDup_crosstab_index.
  - apply elem_of_cross_df_index.
  - apply NoDup_crosstab_columns.
  - apply elem_of_cross_df_columns.
  - intros i j r c Hi Hj.
    exists (cell_count df r <$> ct_columns (cross_df df)).
    rewrite cross_df_values, !list_lookup_fmap, Hi, Hj. cbn.
    split_and!; [done..|]. intros Hno. f_equal.
    unfold cell_count. rewrite filter_none; [done|].
    apply Forall_forall. naive_solver.
Qed.

(** C7: the cells of [cross_df] add up to the number of rows of [df]; the
    cells of the row of a city add up to the number of rows of [df] in
    that city, and the cells of the column of a fuel type to the number of
    rows of [df] with that fuel type. *)
Theorem cross_df_totals df :
  sum_list (concat (ct_values (cross_df df))) = length df
  ∧ (∀ i r, ct_index (cross_df df) !! i = Some r →
       ∃ row, ct_values (cross_df df) !! i = Some row
         ∧ sum_list row = length (filter (λ x, City x = r) df))
  ∧ (∀ j c, ct_columns (cross_df df) !! j = Some c →
       sum_list ((λ row, default 0 (row !! j)) <$> ct_values (cross_df df))
       = length (filter (λ x, FuelType x = c) df)).
Proof.
  split_and!.
  - rewrite sum_list_concat, cross_df_values, <- list_fmap_compose.
    rewrite (list_fmap_ext _ (λ r, count_by City r df)).
    + apply sum_list_count_by; [apply NoDup_crosstab_index|].
      apply Forall_forall. intros x Hx.
      apply elem_of_cross_df_index. eauto.
    + intros _ r _. apply cross_df_row_total.
  - intros i r Hi.
    exists (cell_count df r <$> ct_columns (cross_df df)).
    rewrite cross_df_values, list_lookup_fmap, Hi. split; [done|].
    apply cross_df_row_total.
  - intros j c Hj. rewrite cross_df_values, <- list_fmap_compose.
    rewrite (list_fmap_ext _ (λ r, cell_count df r c)).
    + apply cross_df_column_total.
    + intros _ r _. unfold compose. by rewrite list_lookup_fmap, Hj.
Qed.

(** ** Month labels and empty tables *)

(** C5: whatever rows [monthly_sales] is given, its month-name column
    carries the twelve labels as an ordered label set in calendar order:
    the label of each month stands at that month's calendar place, which
    is not the order [sorted] puts the labels in. *)
Theorem monthly_sales_calendar_labels df :
  cat_categories (ms_MonthName (monthly_sales df))
  = ["Jan";"Feb";"Mar";"Apr";"May";"Jun";"Jul";"Aug";"Sep";"Oct";"Nov";"Dec"]
  ∧ cat_ordered (ms_MonthName (monthly_sales df)) = true
  ∧ (∀ m, cat_categories (ms_MonthName (monthly_sales df))
            !! Z.to_nat (month_number m - 1) = Some (strftime_b m))
  ∧ sorted (cat_categories (ms_MonthName (monthly_sales df)))
    ≠ cat_categories (ms_MonthName (monthly_sales df)).
Proof.
  split_and!; [done..| |].
  - intros m. apply month_order_lookup.
  - cbn. by vm_compute.
Qed.

(** C6: on the table without rows each aggregation returns its empty
    table: no year, no year and month pair, no summary row, and a
    cross-tabulation without labels and cells. *)
Theorem aggregations_of_empty :
  yearly_sales [] = []
  ∧ (ms_Year (monthly_sales []) = []
     ∧ cat_codes (ms_MonthName (monthly_sales [])) = []
     ∧ ms_Sales (monthly_sales []) = [])
  ∧ city_summary [] = []
  ∧ model_perf [] = []
  ∧ sales_perf [] = []
  ∧ cross_df [] = {| ct_index := []; ct_columns := []; ct_values := [] |}.
Proof. split_and!; by vm_compute. Qed.

(** ** Worked inputs *)

Example scenario_filtered :
  filtered_df scenario ["2023"] ["Delhi"; "Mumbai"] ["Petrol"; "Diesel"]
  = take 2 scenario.
Proof. by vm_compute. Qed.

Example scenario_city_summary :
  city_summary scenario
  = [ {| cs_City := "Delhi"; cs_Sales := 2; cs_Revenue := 1050000;
         cs_Avg_Price := Some (525000 # 1) |};
      {| cs_City := "Mumbai"; cs_Sales := 1; cs_Revenue := 700000;
         cs_Avg_Price := Some (700000 # 1) |} ].
Proof. by vm_compute. Qed.

Example scenario_cross_df :
  cross_df scenario
  = {| ct_index := ["Delhi"; "Mumbai"];
       ct_columns := ["Diesel"; "Petrol"];
       ct_values := [[0; 2]; [1; 0]] |}.
Proof. by vm_compute. Qed.

Example scenario_yearly_sales :
  yearly_sales scenario = [("2023", 2); ("2024", 1)].
Proof. by vm_compute. Qed.

Lemma filtered_df_empty_selection_witness :
  (@nil string = [] ∨ ["Delhi"] = [] ∨ ["Petrol"] = [])
  ∧ filtered_df (load_data [csv_dated; csv_undated]) [] ["Delhi"] ["Petrol"]
    = [].
Proof.
  assert (@nil string = [] ∨ ["Delhi"] = [] ∨ ["Petrol"] = []) as Hsel
    by (left; reflexivity).
  split; [exact Hsel|].
  exact (filtered_df_empty_selection _ _ _ _ Hsel).
Defined.

Lemma load_data_derived_columns_witness :
  Forall (λ c, is_Some (csv_SaleDate c)) [csv_dated; csv_unpriced]
  ∧ row_dated ∈ load_data [csv_dated; csv_unpriced]
  ∧ ∃ t, SaleDate row_dated = Some t
      ∧ Year row_dated = str_int (ts_year t)
      ∧ Month row_dated = Some (month_number (ts_month t))
      ∧ (1 ≤ month_number (ts_month t) ≤ 12)%Z
      ∧ MonthName row_dated = Some (strftime_b (ts_month t))
      ∧ month_order !! Z.to_nat (month_number (ts_month t) - 1)
        = MonthName row_dated.
Proof.
  assert (Forall (λ c, is_Some (csv_SaleDate c)) [csv_dated; csv_unpriced])
    as Hall by (repeat constructor; eexists; reflexivity).
  assert (row_dated ∈ load_data [csv_dated; csv_unpriced]) as Hin
    by (vm_compute; left).
  split; [exact Hall|]. split; [exact Hin|].
  exact (load_data_derived_columns _ _ Hall Hin).
Defined.

(** One empty [SaleDate] cell turns the year column into floats: the
    row dated 2023-01-05 gets the year string "2023.0". *)
Lemma load_data_undated_neighbour :
  ∃ r t, r ∈ load_data [csv_dated; csv_undated]
       ∧ SaleDate r = Some t
       ∧ Year r = "2023.0"
       ∧ str_int (ts_year t) = "2023".
Proof.
  eexists _, sale_2023_01_05. split_and!; [vm_compute; left|done..].
Qed.

(** A row without a price is in its city's group but not in the count:
    the one row of Delhi gives the count 0. *)
Lemma city_summary_unpriced_row :
  ∃ e, e ∈ city_summary (load_data [csv_unpriced])
     ∧ cs_Sales e = 0
     ∧ length (filter (λ r, City r = cs_City e) (load_data [csv_unpriced]))
       = 1.
Proof.
  eexists. split_and!; [vm_compute; left|done..].
Qed.

(** * Further properties of the data path *)

(** ** [load_data] *)

Lemma hasnans_true col :
  hasnans col = true ↔ None ∈ col.
Proof.
  unfold hasnans. rewrite negb_true_iff. induction col as [|c col IH].
  - cbn. split; [done|]. by intros ?%not_elem_of_nil.
  - cbn [forallb]. rewrite andb_false_iff, IH, elem_of_cons.
    destruct c as [t|]; cbn.
    + split; [intros [?|?]; [done|by right]|intros [?|?]; [done|by right]].
    + split; [by left|by left].
Qed.

Lemma load_data_undated csv :
  None ∈ map csv_SaleDate csv →
  load_data csv
  = map (λ r, {| SaleDate := csv_SaleDate r; City := csv_City r;
                 FuelType := csv_FuelType r; CarModel := csv_CarModel r;
                 SalesPersonID := csv_SalesPersonID r;
                 Price := csv_Price r;
                 Year := str_float (ts_year <$> csv_SaleDate r);
                 Month := (λ t, month_number (ts_month t))
                            <$> csv_SaleDate r;
                 MonthName := (λ t, strftime_b (ts_month t))
                                <$> csv_SaleDate r |}) csv.
Proof.
  intros Hna%hasnans_true.
  unfold load_data, dt_year, dt_month, dt_field, dt_strftime_b.
  rewrite Hna. cbn [astype_str num_cells]. rewrite !map_map.
  apply assign_columns_map.
Qed.

Lemma dated_or_undated csv :
  Forall (λ c, is_Some (csv_SaleDate c)) csv ∨ None ∈ map csv_SaleDate csv.
Proof.
  induction csv as [|c csv [IH|IH]].
  - left. constructor.
  - destruct (csv_SaleDate c) as [t|] eqn:Hc.
    + left. constructor; [by rewrite Hc|done].
    + right. cbn. rewrite Hc. left.
  - right. cbn. by right.
Qed.

(** When at least one line of the CSV has no sale date, [load_data] writes
    the year of every dated row as a float ("2023.0") beside its month
    number and month name, and gives every undated row no month and no
    month name. *)
Theorem load_data_with_missing_date csv r :
  (∃ c, c ∈ csv ∧ csv_SaleDate c = None) →
  r ∈ load_data csv →
  match SaleDate r with
  | Some t =>
      Year r = str_int (ts_year t) ++ ".0"
      ∧ Month r = Some (month_number (ts_month t))
      ∧ MonthName r = Some (strftime_b (ts_month t))
  | None => Month r = None ∧ MonthName r = None
  end.
Proof.
  intros (c & Hc & Hnone) Hr.
  rewrite load_data_undated in Hr.
  - apply list_elem_of_fmap in Hr as (c' & -> & _). cbn.
    by destruct (csv_SaleDate c').
  - rewrite <- Hnone. by apply list_elem_of_fmap_2.
Qed.

(** ** Order of the labels *)

Lemma String_compare_le_trans a b c :
  String.compare a b ≠ Gt → String.compare b c ≠ Gt →
  String.compare a c ≠ Gt.
Proof.
  revert b c. induction a as [|x a IH]; intros [|y b] [|z c]; cbn;
    try done.
  unfold Ascii.compare.
  destruct (N.compare_spec (N_of_ascii x) (N_of_ascii y)) as [Hxy|Hxy|Hxy];
    destruct (N.compare_spec (N_of_ascii y) (N_of_ascii z))
      as [Hyz|Hyz|Hyz];
    destruct (N.compare_spec (N_of_ascii x) (N_of_ascii z))
      as [Hxz|Hxz|Hxz];
    try done; try lia.
  apply IH.
Qed.

Lemma str_le_compare a b : str_le a b ↔ String.compare a b ≠ Gt.
Proof. unfold str_le, String.leb. by destruct (String.compare a b). Qed.

Lemma str_le_transitive : Transitive str_le.
Proof.
  intros a b c. rewrite !str_le_compare. apply String_compare_le_trans.
Qed.

Lemma str_le_total : Total str_le.
Proof. intros a b. apply String.leb_total. Qed.

Lemma StronglySorted_sorted l : StronglySorted str_le (sorted l).
Proof.
  apply (@StronglySorted_merge_sort _ str_le _
           str_le_transitive str_le_total).
Qed.

(** The options of each sidebar multiselect are the values of the column,
    each listed once, in ascending string order. *)
Theorem sidebar_options_sorted_distinct col :
  (∀ x, x ∈ sidebar_options col ↔ x ∈ col)
  ∧ NoDup (sidebar_options col)
  ∧ StronglySorted str_le (sidebar_options col).
Proof.
  split_and!.
  - intros x. apply elem_of_sidebar_options.
  - unfold sidebar_options. apply NoDup_sorted, NoDup_unique.
  - apply StronglySorted_sorted.
Qed.

Lemma StronglySorted_groupby_keys {A V} (key : A → option string)
    (init : V) (upd : V → A → V) (df : list A) :
  StronglySorted str_le (groupby str_le key init upd df).*1.
Proof.
  unfold groupby, group_rows.
  apply (StronglySorted_fmap fst (by_key str_le) str_le); [done|].
  apply (@StronglySorted_merge_sort _ (by_key str_le) _).
  - intros a b c. unfold by_key. apply str_le_transitive.
  - intros a b. unfold by_key. apply str_le_total.
Qed.

(** The group-by tables come out in ascending order of their key: the
    years of the trend line, the cities of the city table and the fuel
    types of the revenue bars; so do the row and column labels of the
    cross-tabulation. *)
Theorem tables_in_key_order df :
  StronglySorted str_le (yearly_sales df).*1
  ∧ StronglySorted str_le (cs_City <$> city_summary df)
  ∧ StronglySorted str_le (fuel_revenue df).*1
  ∧ StronglySorted str_le (ct_index (cross_df df))
  ∧ StronglySorted str_le (ct_columns (cross_df df)).
Proof.
  split_and!.
  - apply StronglySorted_groupby_keys.
  - unfold city_summary. rewrite <- list_fmap_compose.
    apply (StronglySorted_groupby_keys _ _ price_upd).
  - unfold fuel_revenue. rewrite <- list_fmap_compose.
    apply (StronglySorted_groupby_keys _ _ price_upd).
  - apply StronglySorted_sorted.
  - apply StronglySorted_sorted.
Qed.

(** ** Composing filters *)

Lemma filtered_df_twice df y1 c1 f1 y2 c2 f2 :
  filtered_df (filtered_df df y1 c1 f1) y2 c2 f2
  = filter (λ r, selected y2 c2 f2 r ∧ selected y1 c1 f1 r) df.
Proof. rewrite !filtered_df_filter. apply list_filter_filter. Qed.

(** The result of the filter depends only on which values are selected,
    not on the order in which the widget lists them nor on repetitions. *)
Theorem filtered_df_selection_as_set df y y' c c' f f' :
  (∀ x, x ∈ y ↔ x ∈ y') →
  (∀ x, x ∈ c ↔ x ∈ c') →
  (∀ x, x ∈ f ↔ x ∈ f') →
  filtered_df df y c f = filtered_df df y' c' f'.
Proof.
  intros Hy Hc Hf. rewrite !filtered_df_filter.
  apply list_filter_iff. intros r. unfold selected.
  by rewrite Hy, Hc, Hf.
Qed.

(** Filtering by one selection and then by another keeps the rows that
    pass both, whichever filter comes first. *)
Theorem filtered_df_commute df y1 c1 f1 y2 c2 f2 :
  filtered_df (filtered_df df y1 c1 f1) y2 c2 f2
  = filtered_df (filtered_df df y2 c2 f2) y1 c1 f1
  ∧ ∀ r, r ∈ filtered_df (filtered_df df y1 c1 f1) y2 c2 f2
         ↔ r ∈ df
           ∧ (Year r ∈ y1 ∧ City r ∈ c1 ∧ FuelType r ∈ f1)
           ∧ (Year r ∈ y2 ∧ City r ∈ c2 ∧ FuelType r ∈ f2).
Proof.
  rewrite !filtered_df_twice. split.
  - apply list_filter_iff. naive_solver.
  - intros r. rewrite list_elem_of_filter. unfold selected. naive_solver.
Qed.

(** Deselecting options only removes rows: with smaller selections the
    filtered table is a subsequence of the one the larger selections
    give. *)
Theorem filtered_df_monotone df y y' c c' f f' :
  y ⊆ y' → c ⊆ c' → f ⊆ f' →
  filtered_df df y c f `sublist_of` filtered_df df y' c' f'.
Proof.
  intros Hy Hc Hf.
  assert (filtered_df df y c f
          = filtered_df (filtered_df df y' c' f') y c f) as ->.
  { rewrite filtered_df_twice, filtered_df_filter.
    apply list_filter_iff. intros r. unfold selected.
    specialize (Hy (Year r)). specialize (Hc (City r)).
    specialize (Hf (FuelType r)). naive_solver. }
  rewrite (filtered_df_filter (filtered_df _ _ _ _)).
  apply sublist_filter.
Qed.

(** ** Tables and cards add up *)

Lemma Zsum_app l1 l2 : Zsum (l1 ++ l2) = (Zsum l1 + Zsum l2)%Z.
Proof.
  induction l1 as [|x l1 IH]; cbn; [done|].
  fold (Zsum (l1 ++ l2)) (Zsum l1). lia.
Qed.

Lemma Zsum_Permutation l1 l2 : l1 ≡ₚ l2 → Zsum l1 = Zsum l2.
Proof.
  induction 1 as [|x l1 l2 _ IH|x y l|l1 l2 l3 _ IH1 _ IH2]; cbn.
  - done.
  - fold (Zsum l1) (Zsum l2). lia.
  - fold (Zsum l). lia.
  - congruence.
Qed.

Lemma Zsum_omap_Price rs :
  Zsum (omap Price rs) = Zsum ((λ r, default 0%Z (Price r)) <$> rs).
Proof.
  induction rs as [|r rs IH]; [done|]. cbn.
  destruct (Price r) as [p|]; cbn;
    fold (Zsum (omap Price rs))
         (Zsum ((λ r, default 0%Z (Price r)) <$> rs)); lia.
Qed.

Lemma Price_agg_spec fdf :
  Price_agg fdf = {| agg_count := length (omap Price fdf);
                     agg_sum := Zsum (omap Price fdf) |}.
Proof. unfold Price_agg. by rewrite fold_price_upd. Qed.

Section weighted.
Context {A K : Type} `{EqDecision K} (f : A → K) (w : A → Z).

Lemma Zsum_fmap_add {X} (a b : X → Z) (ks : list X) :
  Zsum ((λ k, a k + b k)%Z <$> ks)
  = (Zsum (a <$> ks) + Zsum (b <$> ks))%Z.
Proof.
  induction ks as [|k ks IH]; cbn; [done|].
  fold (Zsum ((λ k, a k + b k)%Z <$> ks)) (Zsum (a <$> ks))
       (Zsum (b <$> ks)). lia.
Qed.

Lemma Zsum_indicator_out (k0 : K) (z : Z) (ks : list K) :
  k0 ∉ ks →
  Zsum ((λ k, if decide (k0 = k) then z else 0%Z) <$> ks) = 0%Z.
Proof.
  induction ks as [|k ks IH]; [done|].
  rewrite not_elem_of_cons. intros [Hne Hout]. cbn.
  rewrite decide_False by done.
  fold (Zsum ((λ k, if decide (k0 = k) then z else 0%Z) <$> ks)).
  by rewrite IH.
Qed.

Lemma Zsum_indicator (k0 : K) (z : Z) (ks : list K) :
  NoDup ks → k0 ∈ ks →
  Zsum ((λ k, if decide (k0 = k) then z else 0%Z) <$> ks) = z.
Proof.
  induction 1 as [|k ks Hk Hnd IH]; [by intros ?%not_elem_of_nil|].
  cbn. fold (Zsum ((λ k, if decide (k0 = k) then z else 0%Z) <$> ks)).
  destruct (decide (k0 = k)) as [->|Hne].
  - intros _. rewrite Zsum_indicator_out by done. lia.
  - rewrite elem_of_cons. intros [?|Hin]; [done|]. rewrite IH by done. lia.
Qed.

(** Adding up the weights key by key adds up every weight once. *)
Lemma Zsum_by_key (ks : list K) (l : list A) :
  NoDup ks → Forall (λ x, f x ∈ ks) l →
  Zsum ((λ k, Zsum (w <$> filter (λ x, f x = k) l)) <$> ks)
  = Zsum (w <$> l).
Proof.
  intros Hnd. induction 1 as [|x l Hx Hl IH].
  - clear Hnd. induction ks as [|k ks IHks]; [done|]. exact IHks.
  - cbn [fmap list_fmap Zsum foldr]. fold (Zsum (w <$> l)).
    rewrite <- IH.
    trans (Zsum ((λ k, (if decide (f x = k) then w x else 0)
                       + Zsum (w <$> filter (λ x, f x = k) l))%Z <$> ks)).
    + f_equal. apply list_fmap_ext. intros _ k _.
      rewrite filter_cons. case_decide; [|lia]. cbn.
      fold (Zsum (w <$> filter (λ x, f x = k) l)). lia.
    + by rewrite Zsum_fmap_add, Zsum_indicator.
Qed.
End weighted.

Lemma fmap_fst_determined {K V} (g : K → V) (l : list (K * V)) :
  (∀ k v, (k, v) ∈ l → v = g k) → l = (λ k, (k, g k)) <$> l.*1.
Proof.
  induction l as [|[k v] l IH]; intros Hl; [done|]. cbn.
  rewrite <- IH.
  - f_equal. f_equal. apply Hl. left.
  - intros k' v' Hin. apply Hl. by right.
Qed.

Lemma length_omap_Price rs :
  length (omap Price rs) = length (filter (λ r, is_Some (Price r)) rs).
Proof.
  induction rs as [|r rs IH]; [done|]. rewrite filter_cons. cbn.
  destruct (Price r) as [p|]; cbn.
  - rewrite decide_True by done. cbn. by rewrite IH.
  - rewrite decide_False by (by intros [? ?]). done.
Qed.

Section group_totals.
Context {A K : Type} `{Countable K} (key : A → option K).

Lemma keys_cover (ks : list K) (df : list A) :
  NoDup ks → (∀ k, k ∈ ks ↔ ∃ r, r ∈ df ∧ key r = Some k) →
  NoDup (Some <$> ks) ∧ Forall (λ x, key x ∈ Some <$> ks) (keyed key df).
Proof.
  intros Hnd Hks. split.
  - apply (NoDup_fmap_2 Some), Hnd.
  - apply Forall_forall. intros x [[k Hk] Hx]%list_elem_of_filter.
    rewrite Hk. apply list_elem_of_fmap_2, Hks. eauto.
Qed.

Lemma group_of_keyed k (df : list A) :
  filter (λ x, key x = Some k) (keyed key df) = group_of key k df.
Proof.
  unfold keyed, group_of. rewrite list_filter_filter.
  apply list_filter_iff. intros x. split; [by intros [? _]|].
  intros Hk. split; [done|]. by rewrite Hk.
Qed.

Lemma sum_group_lengths (P : A → Prop) `{!∀ x, Decision (P x)}
    (ks : list K) (df : list A) :
  NoDup ks → (∀ k, k ∈ ks ↔ ∃ r, r ∈ df ∧ key r = Some k) →
  sum_list ((λ k, length (filter P (group_of key k df))) <$> ks)
  = length (filter P (keyed key df)).
Proof.
  intros Hnd Hks. destruct (keys_cover ks df Hnd Hks) as [Hnd' Hall].
  rewrite <- (sum_list_count_by key (Some <$> ks) (filter P (keyed key df)))
    by (try done; apply Forall_forall;
        intros x [_ Hx]%list_elem_of_filter;
        by apply (proj1 (Forall_forall _ _) Hall)).
  rewrite <- list_fmap_compose. f_equal. apply list_fmap_ext.
  intros _ k _. unfold compose, count_by.
  rewrite <- group_of_keyed, !list_filter_filter. f_equal.
  apply list_filter_iff. naive_solver.
Qed.

Lemma Zsum_group_weights (w : A → Z) (ks : list K) (df : list A) :
  NoDup ks → (∀ k, k ∈ ks ↔ ∃ r, r ∈ df ∧ key r = Some k) →
  Zsum ((λ k, Zsum (w <$> group_of key k df)) <$> ks)
  = Zsum (w <$> keyed key df).
Proof.
  intros Hnd Hks. destruct (keys_cover ks df Hnd Hks) as [Hnd' Hall].
  rewrite <- (Zsum_by_key key w (Some <$> ks) (keyed key df)) by done.
  rewrite <- list_fmap_compose. f_equal. apply list_fmap_ext.
  intros _ k _. unfold compose. by rewrite group_of_keyed.
Qed.
End group_totals.

Section groupby_size_facts.
Context {A K : Type} `{Countable K}.
Context (key_le : relation K) `{!RelDecision key_le} (key : A → option K).

Lemma elem_of_groupby_size (df : list A) k n :
  (k, n) ∈ groupby_size key_le key df
  ↔ group_of key k df ≠ [] ∧ n = length (group_of key k df).
Proof. unfold groupby_size. by rewrite elem_of_groupby, fold_size. Qed.

Lemma groupby_size_counts (df : list A) :
  (groupby_size key_le key df).*2
  = (λ k, length (group_of key k df)) <$> (groupby_size key_le key df).*1.
Proof.
  rewrite (fmap_fst_determined (λ k, length (group_of key k df))
             (groupby_size key_le key df)) at 1.
  - rewrite <- list_fmap_compose. done.
  - intros k n Hin. by apply elem_of_groupby_size in Hin as [_ ->].
Qed.

Lemma groupby_size_total (df : list A) :
  sum_list (groupby_size key_le key df).*2 = length (keyed key df).
Proof.
  rewrite groupby_size_counts.
  rewrite <- (filter_all (λ _, True) (keyed key df))
    by (by apply Forall_forall).
  rewrite <- (sum_group_lengths key (λ _, True)
                (groupby_size key_le key df).*1 df).
  - f_equal. apply list_fmap_ext. intros _ k _.
    by rewrite filter_all by (by apply Forall_forall).
  - apply NoDup_groupby_keys.
  - intros k. apply elem_of_groupby_keys.
Qed.
End groupby_size_facts.

Lemma keyed_total {A K} (f : A → K) (df : list A) :
  keyed (λ r, Some (f r)) df = df.
Proof. unfold keyed. apply filter_all, Forall_forall. by eauto. Qed.

Lemma group_of_total {A K} `{EqDecision K} (f : A → K) k (df : list A) :
  group_of (λ r, Some (f r)) k df = filter (λ x, f x = k) df.
Proof. unfold group_of. apply list_filter_iff. naive_solver. Qed.

(** The trend line has one point per year present in the table; its
    value is the number of rows of that year, never 0, and the values of
    all points add up to the number on the "Cars Sold" card. *)
Theorem yearly_sales_counts df :
  NoDup (yearly_sales df).*1
  ∧ (∀ y, y ∈ (yearly_sales df).*1 ↔ ∃ r, r ∈ df ∧ Year r = y)
  ∧ (∀ y n, (y, n) ∈ yearly_sales df →
       n = count_by Year y df ∧ (0 < n)%nat)
  ∧ sum_list (yearly_sales df).*2 = kpi_cars_sold df.
Proof.
  unfold yearly_sales. split_and!.
  - apply NoDup_groupby_keys.
  - intros y. unfold groupby_size. rewrite elem_of_groupby_keys.
    naive_solver.
  - intros y n [Hne ->]%elem_of_groupby_size.
    rewrite group_of_total in *. split; [done|].
    destruct (filter _ df); [done|cbn; lia].
  - by rewrite groupby_size_total, keyed_total.
Qed.

Lemma kpi_total_revenue_spec fdf :
  kpi_total_revenue fdf = Zsum (omap Price fdf).
Proof. unfold kpi_total_revenue. by rewrite Price_agg_spec. Qed.

Lemma groupby_price_as_fmap key df :
  groupby_price key df
  = (λ k, (k, {| agg_count := length (group_prices key k df);
                 agg_sum := Zsum (group_prices key k df) |}))
      <$> (groupby_price key df).*1.
Proof.
  apply fmap_fst_determined. intros k [c s] Hin.
  apply elem_of_groupby_price in Hin as [Hc Hs]. cbn in *. by subst.
Qed.

Lemma groupby_price_revenue_total key df :
  Zsum ((λ e, agg_sum e.2) <$> groupby_price key df)
  = kpi_total_revenue (keyed key df).
Proof.
  rewrite groupby_price_as_fmap, <- list_fmap_compose.
  rewrite kpi_total_revenue_spec, Zsum_omap_Price.
  rewrite <- (Zsum_group_weights key _ (groupby_price key df).*1 df).
  - f_equal. apply list_fmap_ext. intros _ k _. unfold compose. cbn.
    unfold group_prices. apply Zsum_omap_Price.
  - apply NoDup_groupby_keys.
  - intros k. apply elem_of_groupby_keys.
Qed.

Lemma groupby_price_count_total key df :
  sum_list ((λ e, agg_count e.2) <$> groupby_price key df)
  = length (omap Price (keyed key df)).
Proof.
  rewrite groupby_price_as_fmap, <- list_fmap_compose.
  rewrite length_omap_Price.
  rewrite <- (sum_group_lengths key _ (groupby_price key df).*1 df).
  - f_equal. apply list_fmap_ext. intros _ k _. unfold compose. cbn.
    unfold group_prices. apply length_omap_Price.
  - apply NoDup_groupby_keys.
  - intros k. apply elem_of_groupby_keys.
Qed.

(** The counts of the city table add up to the number of rows that have
    a price, which is at most the number on the "Cars Sold" card; when
    the absolute values of the prices add up to less than 2^53, its
    revenues add up to the "Total Revenue" card of the same table. *)
Theorem city_summary_totals df :
  sum_list (cs_Sales <$> city_summary df)
  = length (filter (λ r, is_Some (Price r)) df)
  ∧ (sum_list (cs_Sales <$> city_summary df) ≤ kpi_cars_sold df)%nat
  ∧ (price_bound df →
     Zsum (cs_Revenue <$> city_summary df) = kpi_total_revenue df).
Proof.
  unfold city_summary. rewrite <- !list_fmap_compose.
  change (cs_Revenue ∘ _) with (λ e : string * PriceAgg, agg_sum e.2).
  change (cs_Sales ∘ _) with (λ e : string * PriceAgg, agg_count e.2).
  rewrite groupby_price_revenue_total, groupby_price_count_total.
  rewrite keyed_total, length_omap_Price.
  split_and!; [done| |done]. apply length_filter.
Qed.

(** The fuel revenue bars: one bar per fuel type present; when the
    absolute values of the prices add up to less than 2^53, the height
    of a bar is the sum of the prices present among the rows of its fuel
    type, and the bars add up to the "Total Revenue" card. *)
Theorem fuel_revenue_sums df :
  NoDup (fuel_revenue df).*1
  ∧ (∀ c, c ∈ (fuel_revenue df).*1 ↔ ∃ r, r ∈ df ∧ FuelType r = c)
  ∧ (price_bound df →
     (∀ c s, (c, s) ∈ fuel_revenue df →
        s = Zsum (omap Price (filter (λ r, FuelType r = c) df)))
     ∧ Zsum (fuel_revenue df).*2 = kpi_total_revenue df).
Proof.
  unfold fuel_revenue. rewrite <- !list_fmap_compose.
  change (fst ∘ _) with (@fst string PriceAgg).
  change (snd ∘ _) with (λ e : string * PriceAgg, agg_sum e.2).
  split_and!.
  - apply (NoDup_groupby_keys str_le).
  - intros c. unfold groupby_price. rewrite elem_of_groupby_keys.
    naive_solver.
  - intros _. split.
    + intros c s ([k a] & [= -> ->] & Hin)%list_elem_of_fmap.
      apply elem_of_groupby_price in Hin as [_ Hs]. cbn.
      by rewrite Hs; unfold group_prices; rewrite group_of_total.
    + by rewrite groupby_price_revenue_total, keyed_total.
Qed.

(** When the absolute values of the prices add up to less than 2^53, the
    revenues of the car model table add up to the total revenue of the
    rows that name a car model, and those of the salesperson table to
    that of the rows that name a salesperson: a row without the key is
    in neither table. *)
Theorem perf_tables_totals df :
  price_bound df →
  Zsum (mp_Revenue <$> model_perf df)
  = kpi_total_revenue (filter (λ r, is_Some (CarModel r)) df)
  ∧ Zsum (sp_Revenue <$> sales_perf df)
    = kpi_total_revenue (filter (λ r, is_Some (SalesPersonID r)) df).
Proof.
  intros _. unfold model_perf, sales_perf. split.
  - rewrite (Zsum_Permutation _ _ (fmap_sort_values_Revenue_desc _ _ _)).
    rewrite <- list_fmap_compose.
    change (mp_Revenue ∘ _) with (λ e : string * PriceAgg, agg_sum e.2).
    apply groupby_price_revenue_total.
  - rewrite (Zsum_Permutation _ _ (fmap_sort_values_Revenue_desc _ _ _)).
    rewrite <- list_fmap_compose.
    change (sp_Revenue ∘ _) with (λ e : string * PriceAgg, agg_sum e.2).
    apply groupby_price_revenue_total.
Qed.

(** ** KPI cards *)

(** The "Avg Price" card has no number (NaN) exactly when no row of the
    table has a price, an empty table included.  When the absolute
    values of the prices add up to less than 2^53, its number is the
    float64 quotient of the total revenue by the number of rows that
    have a price: within the relative error 2^-53 of their exact
    quotient. *)
Theorem kpi_avg_price_cases fdf :
  (kpi_avg_price fdf = None ↔ Forall (λ r, Price r = None) fdf)
  ∧ (price_bound fdf →
     ∀ q, kpi_avg_price fdf = Some q →
       q = float64_div (kpi_total_revenue fdf)
             (Z.of_nat (length (filter (λ r, is_Some (Price r)) fdf)))
       ∧ (Qabs (q - inject_Z (kpi_total_revenue fdf)
                    / inject_Z
                        (Z.of_nat
                           (length (filter (λ r, is_Some (Price r)) fdf))))
          <= (1 # 2 ^ 53)
             * Qabs (inject_Z (kpi_total_revenue fdf)
                     / inject_Z
                         (Z.of_nat
                            (length
                               (filter (λ r, is_Some (Price r)) fdf)))))%Q).
Proof.
  unfold kpi_avg_price, kpi_total_revenue. split.
  - rewrite agg_mean_None, Price_agg_spec. cbn. split.
    + intros Hlen. apply Forall_forall. intros r Hr.
      destruct (Price r) as [p|] eqn:Hp; [|done].
      assert (p ∈ omap Price fdf) as Hin
        by (apply list_elem_of_omap; eauto).
      destruct (omap Price fdf); [by apply not_elem_of_nil in Hin|done].
    + intros Hall. induction Hall as [|r rs Hr _ IH]; [done|].
      cbn. by rewrite Hr.
  - intros Hb q Hq. split.
    + unfold agg_mean in Hq. rewrite Price_agg_spec in *. cbn in *.
      rewrite <- length_omap_Price.
      destruct (length (omap Price fdf)); [done|]. by injection Hq as <-.
    + pose proof (agg_mean_error (Price_agg fdf) q) as Herr.
      rewrite Price_agg_spec in *. cbn in Herr.
      rewrite <- length_omap_Price. apply Herr; [|done].
      unfold price_bound in Hb.
      pose proof (Zsum_abs_le (omap Price fdf)). lia.
Qed.

(** With an empty selection in any of the three widgets the cards show
    0 cars sold, a total revenue of 0 and no average price (NaN). *)
Theorem kpi_cards_of_empty_selection df year city fuel :
  year = [] ∨ city = [] ∨ fuel = [] →
  kpi_cars_sold (filtered_df df year city fuel) = 0
  ∧ kpi_total_revenue (filtered_df df year city fuel) = 0%Z
  ∧ kpi_avg_price (filtered_df df year city fuel) = None.
Proof.
  intros Hsel.
  assert (filtered_df df year city fuel = []) as ->; [|done].
  rewrite filtered_df_filter. apply filter_none.
  apply Forall_forall. intros r _ (Hy & Hc & Hf).
  destruct Hsel as [->| [->| ->]]; by eapply not_elem_of_nil.
Qed.

(** ** Product and salesperson charts *)

Lemma Revenue_ge_StronglySorted {R} (revenue : R → Z) (t : list R) :
  StronglySorted (Revenue_ge revenue) (sort_values_Revenue_desc revenue t).
Proof.
  apply (@StronglySorted_merge_sort _ (Revenue_ge revenue) _).
  - intros a b c. unfold Revenue_ge. lia.
  - intros a b. unfold Revenue_ge. lia.
Qed.

Lemma head_of_sorted {R} (rel : relation R) (n : nat) (t : list R) :
  StronglySorted rel t →
  head n t `prefix_of` t
  ∧ (length (head n t) ≤ n)%nat
  ∧ ∀ a b, a ∈ head n t → b ∈ drop n t → rel a b.
Proof.
  intros Hs. unfold head. split_and!.
  - apply prefix_take.
  - rewrite length_take. lia.
  - intros a b Ha Hb. rewrite <- (take_drop n t) in Hs.
    by eapply StronglySorted_app_1_elem_of.
Qed.

(** The car model table and the salesperson table are in descending
    order of revenue; each chart draws the first rows of its table, ten
    at most, and no row left out of a chart has a larger revenue than a
    row drawn. *)
Theorem perf_tables_top_ten df :
  (StronglySorted (λ a b, mp_Revenue b ≤ mp_Revenue a)%Z (model_perf df)
   ∧ model_perf_top df `prefix_of` model_perf df
   ∧ (length (model_perf_top df) ≤ 10)%nat
   ∧ ∀ a b, a ∈ model_perf_top df → b ∈ drop 10 (model_perf df) →
       (mp_Revenue b ≤ mp_Revenue a)%Z)
  ∧ (StronglySorted (λ a b, sp_Revenue b ≤ sp_Revenue a)%Z (sales_perf df)
     ∧ sales_perf_top df `prefix_of` sales_perf df
     ∧ (length (sales_perf_top df) ≤ 10)%nat
     ∧ ∀ a b, a ∈ sales_perf_top df → b ∈ drop 10 (sales_perf df) →
         (sp_Revenue b ≤ sp_Revenue a)%Z).
Proof.
  split.
  - pose proof (Revenue_ge_StronglySorted mp_Revenue
      ((λ e, {| mp_CarModel := e.1; mp_Units_Sold := agg_count e.2;
                mp_Revenue := agg_sum e.2 |})
         <$> groupby_price CarModel df)) as Hs.
    split; [exact Hs|]. by apply (head_of_sorted _ 10) in Hs.
  - pose proof (Revenue_ge_StronglySorted sp_Revenue
      ((λ e, {| sp_SalesPersonID := e.1; sp_Cars_Sold := agg_count e.2;
                sp_Revenue := agg_sum e.2 |})
         <$> groupby_price SalesPersonID df)) as Hs.
    split; [exact Hs|]. by apply (head_of_sorted _ 10) in Hs.
Qed.

(** ** Fuel tab *)

Lemma value_counts_lookup (col : list string) v :
  default 0 (group_fold Some 0 (λ n _, S n) col !! v) = count_by id v col.
Proof.
  rewrite group_fold_lookup, group_of_total. unfold count_by.
  rewrite (list_filter_iff (λ x, x = v) (λ x, id x = v)) by done.
  destruct (filter _ col) as [|x xs]; [done|]. by rewrite fold_size.
Qed.

Lemma value_counts_Permutation col :
  value_counts col ≡ₚ (λ v, (v, count_by id v col)) <$> unique col.
Proof.
  unfold value_counts. rewrite merge_sort_Permutation.
  rewrite (list_fmap_ext _ (λ v, (v, count_by id v col))); [done|].
  intros _ v _. cbn. by rewrite value_counts_lookup.
Qed.

Lemma elem_of_value_counts col v n :
  (v, n) ∈ value_counts col ↔ v ∈ col ∧ n = count_by id v col.
Proof.
  rewrite value_counts_Permutation, list_elem_of_fmap. split.
  - intros (v' & [= -> ->] & Hin).
    by apply (proj1 (elem_of_unique _ _)) in Hin.
  - intros [Hin ->]. exists v. by rewrite elem_of_unique.
Qed.

Lemma count_by_fmap {A} (f : A → string) c (l : list A) :
  count_by id c (map f l) = count_by f c l.
Proof.
  unfold count_by.
  by rewrite (length_filter_fmap f (λ y, id y = c)).
Qed.

(** The fuel pie: one slice per fuel type present, whose size is the
    number of rows of that fuel type; the slices come largest first and
    add up to the number on the "Cars Sold" card. *)
Theorem fuel_count_slices df :
  NoDup (fuel_count df).*1
  ∧ (∀ c n, (c, n) ∈ fuel_count df
            ↔ (∃ r, r ∈ df ∧ FuelType r = c) ∧ n = count_by FuelType c df)
  ∧ StronglySorted (λ a b, b.2 ≤ a.2)%nat (fuel_count df)
  ∧ sum_list (fuel_count df).*2 = kpi_cars_sold df.
Proof.
  unfold fuel_count. split_and!.
  - rewrite value_counts_Permutation, <- list_fmap_compose.
    rewrite (list_fmap_ext _ id) by done. rewrite list_fmap_id.
    apply NoDup_unique.
  - intros c n. rewrite elem_of_value_counts, list_elem_of_fmap.
    rewrite count_by_fmap. naive_solver.
  - apply (@StronglySorted_merge_sort _ Count_ge _).
    + intros a b c. unfold Count_ge. lia.
    + intros a b. unfold Count_ge. lia.
  - rewrite value_counts_Permutation, <- list_fmap_compose.
    change (snd ∘ _) with (λ v, count_by id v (map FuelType df)).
    rewrite (sum_list_count_by id).
    + apply length_map.
    + apply NoDup_unique.
    + apply Forall_forall. intros x Hx. by apply elem_of_unique.
Qed.

Lemma cross_df_column df j c :
  ct_columns (cross_df df) !! j = Some c →
  (λ row, default 0 (row !! j)) <$> ct_values (cross_df df)
  = (λ r, cell_count df r c) <$> ct_index (cross_df df).
Proof.
  intros Hj. rewrite cross_df_values, <- list_fmap_compose.
  apply list_fmap_ext. intros _ r _. unfold compose.
  by rewrite list_lookup_fmap, Hj.
Qed.

(** The fuel pie and the heatmap agree: they show the same fuel types,
    and the cells of the heatmap column of a fuel type add up to the size
    of its slice. *)
Theorem fuel_count_matches_cross_df df :
  (∀ c, c ∈ (fuel_count df).*1 ↔ c ∈ ct_columns (cross_df df))
  ∧ ∀ c n j,
      (c, n) ∈ fuel_count df →
      ct_columns (cross_df df) !! j = Some c →
      sum_list ((λ row, default 0 (row !! j)) <$> ct_values (cross_df df))
      = n.
Proof.
  split.
  - intros c. rewrite elem_of_cross_df_columns, list_elem_of_fmap. split.
    + intros ([c' n] & -> & Hin). unfold fuel_count in Hin.
      apply elem_of_value_counts in Hin as [Hin _].
      apply list_elem_of_fmap in Hin as (r & -> & Hr). eauto.
    + intros (r & Hr & <-).
      exists (FuelType r, count_by id (FuelType r) (map FuelType df)).
      split; [done|]. apply elem_of_value_counts.
      split; [|done]. by apply list_elem_of_fmap_2.
  - intros c n j Hin Hj. unfold fuel_count in Hin.
    apply elem_of_value_counts in Hin as [_ ->].
    rewrite (cross_df_column _ _ _ Hj), cross_df_column_total.
    by rewrite count_by_fmap.
Qed.

(** ** Month chart *)

Lemma load_data_MonthName csv r :
  r ∈ load_data csv →
  MonthName r = (λ t, strftime_b (ts_month t)) <$> SaleDate r.
Proof.
  destruct (dated_or_undated csv) as [H|H].
  - rewrite (load_data_dated _ H).
    by intros (c & -> & _)%list_elem_of_fmap.
  - rewrite (load_data_undated _ H).
    by intros (c & -> & _)%list_elem_of_fmap.
Qed.

Lemma month_code_decodes mo :
  (fst <$> list_find (eq (strftime_b mo)) month_order)
    ≫= (λ k, month_order !! k)
  = Some (strftime_b mo).
Proof. by destruct mo. Qed.

Lemma month_code_range mo :
  ∃ k, fst <$> list_find (eq (strftime_b mo)) month_order = Some k
       ∧ (k < 12)%nat.
Proof.
  exists (Z.to_nat (month_number mo - 1)).
  destruct mo; (split; [reflexivity|cbn; lia]).
Qed.

Lemma filter_ext_elem_of {A} (P Q : A → Prop) `{!∀ x, Decision (P x)}
    `{!∀ x, Decision (Q x)} (l : list A) :
  (∀ x, x ∈ l → P x ↔ Q x) → filter P l = filter Q l.
Proof.
  induction l as [|x l IH]; intros Hl; [done|].
  rewrite !filter_cons, IH by (intros y Hy; apply Hl; by right).
  destruct (decide (P x)) as [HP|HP], (decide (Q x)) as [HQ|HQ];
    try done; exfalso; apply (Hl x) in HP || apply (Hl x) in HQ;
    by first [done | left].
Qed.

Lemma monthly_group_month csv e :
  e ∈ groupby_size pair_le year_month_key (load_data csv) →
  ∃ mo, e.1.2 = strftime_b mo.
Proof.
  destruct e as [[y m] n]. intros Hin.
  assert ((y, m) ∈ (groupby_size pair_le year_month_key
                      (load_data csv)).*1) as Hk
    by (apply list_elem_of_fmap; by exists (y, m, n)).
  unfold groupby_size in Hk.
  apply elem_of_groupby_keys in Hk as (r & Hr & Hkey).
  unfold year_month_key in Hkey.
  rewrite (load_data_MonthName _ _ Hr) in Hkey.
  destruct (SaleDate r) as [t|]; [|done].
  injection Hkey as _ <-. by exists (ts_month t).
Qed.

(** The month chart of a loaded table: its three columns have one entry
    per (year, month name) pair; every month name has a code below 12 in
    the calendar label set, and the code decodes to that month name; the
    rows without a sale date are in none of the bars, whose counts add up
    to the number of dated rows. *)
Theorem monthly_sales_of_loaded csv :
  length (ms_Year (monthly_sales (load_data csv)))
  = length (ms_Sales (monthly_sales (load_data csv)))
  ∧ length (cat_codes (ms_MonthName (monthly_sales (load_data csv))))
    = length (ms_Sales (monthly_sales (load_data csv)))
  ∧ Forall (λ c, ∃ k, c = Some k ∧ (k < 12)%nat)
      (cat_codes (ms_MonthName (monthly_sales (load_data csv))))
  ∧ (λ c, c ≫= (λ k, month_order !! k))
      <$> cat_codes (ms_MonthName (monthly_sales (load_data csv)))
    = (λ e, Some e.1.2)
      <$> groupby_size pair_le year_month_key (load_data csv)
  ∧ sum_list (ms_Sales (monthly_sales (load_data csv)))
    = length (filter (λ r, is_Some (SaleDate r)) (load_data csv)).
Proof.
  cbn. split_and!.
  - by rewrite !length_map.
  - by rewrite !length_map.
  - rewrite map_map. apply Forall_fmap, Forall_forall.
    intros [[y m] n] He.
    apply monthly_group_month in He as [mo Hmo]. cbn in *. subst m.
    apply month_code_range.
  - rewrite map_map, <- list_fmap_compose. apply list_fmap_ext.
    intros _ [[y m] n] He%list_elem_of_lookup_2.
    apply monthly_group_month in He as [mo Hmo]. cbn in *. subst m.
    apply month_code_decodes.
  - change (map snd ?l) with (l.*2). rewrite groupby_size_total.
    unfold keyed. f_equal. apply filter_ext_elem_of.
    intros r Hr. unfold year_month_key.
    rewrite (load_data_MonthName _ _ Hr).
    destruct (SaleDate r); cbn; split; intros [? ?]; try done; eauto.
Qed.

(** ** Tables of a table without missing prices, and of a filtered table *)

(** When every row has a price, the count of each row of the city table
    is the number of rows of that city, is positive, and the row has an
    average price; the counts then add up to the "Cars Sold" card. *)
Theorem city_summary_all_priced df e :
  Forall (λ r, is_Some (Price r)) df →
  e ∈ city_summary df →
  cs_Sales e = count_by City (cs_City e) df
  ∧ (0 < cs_Sales e)%nat
  ∧ is_Some (cs_Avg_Price e)
  ∧ sum_list (cs_Sales <$> city_summary df) = kpi_cars_sold df.
Proof.
  intros Hall He.
  assert (sum_list (cs_Sales <$> city_summary df) = kpi_cars_sold df)
    as Hsum.
  { unfold city_summary. rewrite <- list_fmap_compose.
    change (cs_Sales ∘ _) with (λ e : string * PriceAgg, agg_count e.2).
    rewrite groupby_price_count_total, keyed_total, length_omap_Price.
    by rewrite filter_all. }
  unfold city_summary in He.
  apply list_elem_of_fmap in He as ([k a] & -> & Hin). cbn.
  pose proof Hin as [Hne _]%elem_of_groupby.
  apply elem_of_groupby_price in Hin as [Hc _].
  rewrite group_prices_all_present in Hc by done.
  rewrite group_of_total in Hc, Hne.
  assert (0 < agg_count a)%nat as Hpos
    by (rewrite Hc; destruct (filter _ df); [done|cbn; lia]).
  split_and!; [done..| |done].
  pose proof (agg_mean_spec a) as Hm.
  destruct (agg_mean a); [done|lia].
Qed.

(** Every chart of a filtered table stays within the selections: the
    years of the trend line are selected years, the cities of the city
    table and of the heatmap rows are selected cities, and the fuel types
    of the pie, of the revenue bars and of the heatmap columns are
    selected fuel types. *)
Theorem charts_within_selection df year city fuel :
  (yearly_sales (filtered_df df year city fuel)).*1 ⊆ year
  ∧ cs_City <$> city_summary (filtered_df df year city fuel) ⊆ city
  ∧ ct_index (cross_df (filtered_df df year city fuel)) ⊆ city
  ∧ ct_columns (cross_df (filtered_df df year city fuel)) ⊆ fuel
  ∧ (fuel_count (filtered_df df year city fuel)).*1 ⊆ fuel
  ∧ (fuel_revenue (filtered_df df year city fuel)).*1 ⊆ fuel.
Proof.
  rewrite filtered_df_filter.
  assert (∀ r, r ∈ filter (selected year city fuel) df →
               Year r ∈ year ∧ City r ∈ city ∧ FuelType r ∈ fuel) as Hsel
    by (by intros r [? _]%list_elem_of_filter).
  split_and!.
  - intros y. unfold yearly_sales, groupby_size.
    rewrite elem_of_groupby_keys. intros (r & Hr%Hsel & [= <-]).
    apply Hr.
  - intros c. unfold city_summary. rewrite <- list_fmap_compose.
    change (cs_City ∘ _) with (@fst string PriceAgg).
    unfold groupby_price. rewrite elem_of_groupby_keys.
    intros (r & Hr%Hsel & [= <-]). apply Hr.
  - intros c. rewrite elem_of_cross_df_index.
    intros (r & Hr%Hsel & <-). apply Hr.
  - intros c. rewrite elem_of_cross_df_columns.
    intros (r & Hr%Hsel & <-). apply Hr.
  - intros c. rewrite list_elem_of_fmap. intros ([c' n] & -> & Hin).
    unfold fuel_count in Hin.
    apply elem_of_value_counts in Hin as [Hin _].
    apply list_elem_of_fmap in Hin as (r & -> & Hr%Hsel). apply Hr.
  - intros c. unfold fuel_revenue. rewrite <- list_fmap_compose.
    change (fst ∘ _) with (@fst string PriceAgg).
    unfold groupby_price. rewrite elem_of_groupby_keys.
    intros (r & Hr%Hsel & [= <-]). apply Hr.
Qed.

(** ** Worked inputs for the properties above *)

Lemma load_data_with_missing_date_witness :
  (∃ c, c ∈ [csv_dated; csv_undated] ∧ csv_SaleDate c = None)
  ∧ {| SaleDate := Some sale_2023_01_05; City := "Delhi";
       FuelType := "Petrol"; CarModel := Some "Swift";
       SalesPersonID := Some "SP01"; Price := Some 500000%Z;
       Year := "2023.0"; Month := Some 1%Z; MonthName := Some "Jan" |}
    ∈ load_data [csv_dated; csv_undated]
  ∧ "2023.0" = str_int 2023 ++ ".0"
  ∧ Some 1%Z = Some (month_number January)
  ∧ Some "Jan" = Some (strftime_b January).
Proof.
  assert (∃ c, c ∈ [csv_dated; csv_undated] ∧ csv_SaleDate c = None)
    as Hex by (exists csv_undated; split; [right; left|reflexivity]).
  assert ({| SaleDate := Some sale_2023_01_05; City := "Delhi";
             FuelType := "Petrol"; CarModel := Some "Swift";
             SalesPersonID := Some "SP01"; Price := Some 500000%Z;
             Year := "2023.0"; Month := Some 1%Z;
             MonthName := Some "Jan" |}
          ∈ load_data [csv_dated; csv_undated]) as Hin
    by (vm_compute; left).
  split; [exact Hex|]. split; [exact Hin|].
  exact (load_data_with_missing_date _ _ Hex Hin).
Defined.

Lemma filtered_df_selection_as_set_witness :
  (∀ x, x ∈ ["2023"; "2024"] ↔ x ∈ ["2024"; "2023"; "2023"])
  ∧ (∀ x, x ∈ ["Delhi"; "Mumbai"] ↔ x ∈ ["Mumbai"; "Delhi"])
  ∧ (∀ x, x ∈ ["Petrol"] ↔ x ∈ ["Petrol"; "Petrol"])
  ∧ filtered_df scenario ["2023"; "2024"] ["Delhi"; "Mumbai"] ["Petrol"]
    = filtered_df scenario ["2024"; "2023"; "2023"] ["Mumbai"; "Delhi"]
        ["Petrol"; "Petrol"].
Proof.
  assert (∀ x, x ∈ ["2023"; "2024"] ↔ x ∈ ["2024"; "2023"; "2023"])
    as Hy by set_solver.
  assert (∀ x, x ∈ ["Delhi"; "Mumbai"] ↔ x ∈ ["Mumbai"; "Delhi"])
    as Hc by set_solver.
  assert (∀ x, x ∈ ["Petrol"] ↔ x ∈ ["Petrol"; "Petrol"])
    as Hf by set_solver.
  split; [exact Hy|]. split; [exact Hc|]. split; [exact Hf|].
  exact (filtered_df_selection_as_set scenario _ _ _ _ _ _ Hy Hc Hf).
Defined.

Lemma filtered_df_monotone_witness :
  ["2023"] ⊆ ["2023"; "2024"]
  ∧ ["Delhi"] ⊆ ["Delhi"; "Mumbai"]
  ∧ ["Petrol"] ⊆ ["Petrol"; "Diesel"]
  ∧ filtered_df scenario ["2023"] ["Delhi"] ["Petrol"]
    `sublist_of` filtered_df scenario ["2023"; "2024"] ["Delhi"; "Mumbai"]
                   ["Petrol"; "Diesel"].
Proof.
  assert (["2023"] ⊆ ["2023"; "2024"]) as Hy by set_solver.
  assert (["Delhi"] ⊆ ["Delhi"; "Mumbai"]) as Hc by set_solver.
  assert (["Petrol"] ⊆ ["Petrol"; "Diesel"]) as Hf by set_solver.
  split; [exact Hy|]. split; [exact Hc|]. split; [exact Hf|].
  exact (filtered_df_monotone scenario _ _ _ _ _ _ Hy Hc Hf).
Defined.

Lemma kpi_cards_of_empty_selection_witness :
  (["2023"] = [] ∨ @nil string = [] ∨ ["Petrol"] = [])
  ∧ kpi_cars_sold (filtered_df scenario ["2023"] [] ["Petrol"]) = 0
  ∧ kpi_total_revenue (filtered_df scenario ["2023"] [] ["Petrol"]) = 0%Z
  ∧ kpi_avg_price (filtered_df scenario ["2023"] [] ["Petrol"]) = None.
Proof.
  assert (["2023"] = [] ∨ @nil string = [] ∨ ["Petrol"] = []) as Hsel
    by (right; left; reflexivity).
  split; [exact Hsel|].
  exact (kpi_cards_of_empty_selection scenario _ _ _ Hsel).
Defined.

Lemma city_summary_all_priced_witness :
  Forall (λ r, is_Some (Price r)) scenario
  ∧ {| cs_City := "Delhi"; cs_Sales := 2; cs_Revenue := 1050000;
       cs_Avg_Price := Some (525000 # 1) |} ∈ city_summary scenario
  ∧ 2 = count_by City "Delhi" scenario
  ∧ (0 < 2)%nat
  ∧ is_Some (Some (525000 # 1))
  ∧ sum_list (cs_Sales <$> city_summary scenario) = kpi_cars_sold scenario.
Proof.
  assert (Forall (λ r, is_Some (Price r)) scenario) as Hall
    by (vm_compute; repeat constructor; eexists; reflexivity).
  assert ({| cs_City := "Delhi"; cs_Sales := 2; cs_Revenue := 1050000;
             cs_Avg_Price := Some (525000 # 1) |} ∈ city_summary scenario)
    as Hin by (vm_compute; left).
  split; [exact Hall|]. split; [exact Hin|].
  exact (city_summary_all_priced scenario _ Hall Hin).
Defined.

Lemma price_bound_scenario : price_bound scenario.
Proof. unfold price_bound. by vm_compute. Defined.

Lemma groupby_price_summaries_witness :
  price_bound scenario
  ∧ (∀ e, e ∈ city_summary scenario →
       cs_Revenue e
         = Zsum (group_prices (λ r, Some (City r)) (cs_City e) scenario)
       ∧ cs_Avg_Price e
         = match cs_Sales e with
           | O => None
           | S _ => Some (float64_div (cs_Revenue e)
                            (Z.of_nat (cs_Sales e)))
           end
       ∧ ∀ q, cs_Avg_Price e = Some q →
           (Qabs (q - inject_Z (cs_Revenue e)
                      / inject_Z (Z.of_nat (cs_Sales e)))
            <= (1 # 2 ^ 53)
               * Qabs (inject_Z (cs_Revenue e)
                       / inject_Z (Z.of_nat (cs_Sales e))))%Q)
  ∧ (∀ e, e ∈ model_perf scenario →
       mp_Revenue e
       = Zsum (group_prices CarModel (mp_CarModel e) scenario))
  ∧ (∀ e, e ∈ sales_perf scenario →
       sp_Revenue e
       = Zsum (group_prices SalesPersonID (sp_SalesPersonID e) scenario)).
Proof.
  split; [exact price_bound_scenario|].
  exact (proj2 (proj2 (proj2 (groupby_price_summaries scenario)))
           price_bound_scenario).
Defined.

Lemma city_summary_totals_witness :
  price_bound scenario
  ∧ Zsum (cs_Revenue <$> city_summary scenario)
    = kpi_total_revenue scenario.
Proof.
  split; [exact price_bound_scenario|].
  exact (proj2 (proj2 (city_summary_totals scenario))
           price_bound_scenario).
Defined.

Lemma fuel_revenue_sums_witness :
  price_bound scenario
  ∧ (∀ c s, (c, s) ∈ fuel_revenue scenario →
       s = Zsum (omap Price (filter (λ r, FuelType r = c) scenario)))
  ∧ Zsum (fuel_revenue scenario).*2 = kpi_total_revenue scenario.
Proof.
  split; [exact price_bound_scenario|].
  exact (proj2 (proj2 (fuel_revenue_sums scenario)) price_bound_scenario).
Defined.

Lemma perf_tables_totals_witness :
  price_bound scenario
  ∧ Zsum (mp_Revenue <$> model_perf scenario)
    = kpi_total_revenue (filter (λ r, is_Some (CarModel r)) scenario)
  ∧ Zsum (sp_Revenue <$> sales_perf scenario)
    = kpi_total_revenue (filter (λ r, is_Some (SalesPersonID r)) scenario).
Proof.
  split; [exact price_bound_scenario|].
  exact (perf_tables_totals scenario price_bound_scenario).
Defined.

Lemma kpi_avg_price_cases_witness :
  price_bound scenario
  ∧ ∀ q, kpi_avg_price scenario = Some q →
      q = float64_div (kpi_total_revenue scenario)
            (Z.of_nat (length (filter (λ r, is_Some (Price r)) scenario)))
      ∧ (Qabs (q - inject_Z (kpi_total_revenue scenario)
                   / inject_Z
                       (Z.of_nat
                          (length
                             (filter (λ r, is_Some (Price r)) scenario))))
         <= (1 # 2 ^ 53)
            * Qabs (inject_Z (kpi_total_revenue scenario)
                    / inject_Z
                        (Z.of_nat
                           (length
                              (filter (λ r, is_Some (Price r))
                                 scenario)))))%Q.
Proof.
  split; [exact price_bound_scenario|].
  exact (proj2 (kpi_avg_price_cases scenario) price_bound_scenario).
Defined.

(** A mean that float64 does not hold exactly: 1750000 / 3. *)
Example scenario_kpi_avg_price :
  kpi_avg_price scenario = Some (float64_div 1750000 3)
  ∧ ieee_div 1750000 3 = Some (float64_div 1750000 3)
  ∧ ¬ (float64_div 1750000 3 == 1750000 # 3)%Q.
Proof. split_and!; by vm_compute. Qed.
